(** * A verified reading of the mandelbrot JIT

    The development embeds the translation units of the tutorial:

    - [micro-asm.h]: the byte-level x86-64 instruction emitters;
    - [mandeljit.c]: [compile], which walks a bytecode string and emits a
      native routine into a 4096-byte page, and the rendering loop of [main];
    - [simple.c]: [interpret], the reference interpreter of the same
      bytecode, and its [main];
    - [hardcoded.c]: the interpreter specialised to the Mandelbrot step, and
      its [main];
    - [jitproto.c]: [compile_identity].

    To speak about "invoking the compiled routine" the file also contains a
    small model of the x86-64 fragment the emitters can produce (SSE2 moves
    and scalar/packed double arithmetic with a [disp8(%rdi)] memory operand,
    and [ret]).

    Conventions of the model:

    - a C [double] is a primitive binary64 float, with round-to-nearest-even
      arithmetic; equality of two such values is equality of bit patterns,
      except that the payloads of NaN are not distinguished;
    - the register file is a list of [complex] records, addressed by index in
      C and by byte offset from the pointer passed in [%rdi] in machine code;
    - [char] is signed and 8 bits wide, [int] 32 and [long] 64 bits wide;
    - [mmap] is taken to succeed;
    - a C string is the list of its characters, followed in memory by the
      terminating NUL. *)

From Stdlib Require Import ZArith List String Ascii Bool Lia Floats.
From Stdlib Require Uint63 DecimalString.
From stdpp Require Import base list.

Import ListNotations.
Local Open Scope Z_scope.

(** ** C integer conversions *)

Module C.

(** Conversion of an integer to a signed type of [bits] bits (x86-64 gcc:
    reduction modulo 2^bits into the signed range). *)
Definition wrap_signed (bits x : Z) : Z :=
  (x + 2 ^ (bits - 1)) mod 2 ^ bits - 2 ^ (bits - 1).

(** [char] is a signed 8-bit type on x86-64. *)
Definition to_char (x : Z) : Z := wrap_signed 8 x.

(** [size_t] / [unsigned long] is 64 bits wide. *)
Definition to_ulong (x : Z) : Z := x mod 2 ^ 64.

(** [unsigned int], used by the [%x] conversion of [fprintf]. *)
Definition to_uint (x : Z) : Z := x mod 2 ^ 32.

(** The bit pattern of a [char] held in memory, as a number in [0, 256). *)
Definition byte_of (x : Z) : Z := x mod 256.

(** The value of a character of a string literal, as a (signed) [char]. *)
Definition char_of_ascii (c : ascii) : Z := to_char (Z.of_N (N_of_ascii c)).

Definition is_nul (c : ascii) : bool := char_of_ascii c =? 0.

(** What [%s] prints: the characters up to the first NUL. *)
Fixpoint c_str (s : string) : string :=
  match s with
  | EmptyString => EmptyString
  | String c tl => if is_nul c then EmptyString else String c (c_str tl)
  end.

Definition hex_digit (d : Z) : ascii :=
  nth (Z.to_nat d) (list_ascii_of_string "0123456789abcdef") "0"%char.

Fixpoint hex_digits (fuel : nat) (n : Z) (acc : string) : string :=
  match fuel with
  | O => acc
  | S fuel' =>
      let acc' := String (hex_digit (n mod 16)) acc in
      if n / 16 =? 0 then acc' else hex_digits fuel' (n / 16) acc'
  end.

(** What [%x] prints for an [int] argument. *)
Definition printf_x (v : Z) : string := hex_digits 8 (to_uint v) EmptyString.

End C.

(** ** Outcomes of a C function

    A call either returns, terminates the process through [exit] after
    writing to [stderr], or runs into undefined behaviour. *)

Inductive fault : Set :=
| BufferOverrun      (** store beyond the 4096-byte code page *)
| ReadPastTerminator (** read of [code] beyond its terminating NUL *)
| OutOfBounds.       (** access outside the register file *)

Inductive result (A : Type) : Type :=
| Ok (a : A)
| Exit (status : Z) (stderr : string)
| Undefined (f : fault).

Arguments Ok {A} a.
Arguments Exit {A} status stderr.
Arguments Undefined {A} f.

Definition bind {A B : Type} (m : result A) (k : A -> result B) : result B :=
  match m with
  | Ok a => k a
  | Exit st msg => Exit st msg
  | Undefined f => Undefined f
  end.

Notation "'let*' x ':=' m 'in' k" := (bind m (fun x => k))
  (at level 10, x name, m at level 100, k at level 200).

(** ** micro-asm.h *)

Definition PAGE_SIZE : Z := 4096.

(** [microasm] holds the write cursor [dest]; [image] is the content of the
    page below the cursor (the bytes stored so far). *)
Record microasm : Type := MicroAsm { dest : Z; image : list Z }.

Definition xmm (n : Z) : Z := n.

(** [*(a->dest++) = (char) b]. *)
Definition store_byte (a : microasm) (b : Z) : result microasm :=
  if dest a <? PAGE_SIZE
  then Ok {| dest := dest a + 1; image := image a ++ [C.byte_of (C.to_char b)] |}
  else Undefined BufferOverrun.

(** [asm_write(a, n, b1, ..., bn)]; [n] is the length of [bytes]. *)
Fixpoint asm_write (a : microasm) (bytes : list Z) : result microasm :=
  match bytes with
  | [] => Ok a
  | b :: bs => let* a' := store_byte a b in asm_write a' bs
  end.

(** The emitters take [char] parameters: arguments are converted to [char]
    at the call. *)
Definition modrm_mem (reg : Z) : Z := Z.lor 0x47 (Z.shiftl reg 3).
Definition modrm_reg (r1 r2 : Z) : Z := Z.lor (Z.lor 0xc0 (Z.shiftl r1 3)) r2.

Definition movpd_reg_memory (a : microasm) (reg disp : Z) :=
  let reg := C.to_char reg in let disp := C.to_char disp in
  asm_write a [0x66; 0x0f; 0x11; modrm_mem reg; disp].
Definition movpd_memory_reg (a : microasm) (disp reg : Z) :=
  let reg := C.to_char reg in let disp := C.to_char disp in
  asm_write a [0x66; 0x0f; 0x10; modrm_mem reg; disp].
Definition addpd_memory_reg (a : microasm) (disp reg : Z) :=
  let reg := C.to_char reg in let disp := C.to_char disp in
  asm_write a [0x66; 0x0f; 0x58; modrm_mem reg; disp].
Definition movsd_reg_memory (a : microasm) (reg disp : Z) :=
  let reg := C.to_char reg in let disp := C.to_char disp in
  asm_write a [0xf2; 0x0f; 0x11; modrm_mem reg; disp].
Definition movsd_memory_reg (a : microasm) (disp reg : Z) :=
  let reg := C.to_char reg in let disp := C.to_char disp in
  asm_write a [0xf2; 0x0f; 0x10; modrm_mem reg; disp].
Definition movsd_reg_reg (a : microasm) (src dst : Z) :=
  let src := C.to_char src in let dst := C.to_char dst in
  asm_write a [0xf2; 0x0f; 0x11; modrm_reg src dst].
Definition mulsd (a : microasm) (src dst : Z) :=
  let src := C.to_char src in let dst := C.to_char dst in
  asm_write a [0xf2; 0x0f; 0x59; modrm_reg dst src].
Definition addsd (a : microasm) (src dst : Z) :=
  let src := C.to_char src in let dst := C.to_char dst in
  asm_write a [0xf2; 0x0f; 0x58; modrm_reg dst src].
Definition subsd (a : microasm) (src dst : Z) :=
  let src := C.to_char src in let dst := C.to_char dst in
  asm_write a [0xf2; 0x0f; 0x5c; modrm_reg dst src].

(** ** mandeljit.c: [compile] *)

(** [typedef struct { double r; double i; } complex;] *)
Record complex : Set := Complex { re : float; im : float }.

Definition sizeof_complex : Z := 16.
Definition offsetof_r : Z := 0.
Definition offsetof_i : Z := 8.

(** [sizeof(complex) * (c - 'a')], stored in a [char]: the [int] difference
    is converted to [unsigned long], multiplied, and narrowed. *)
Definition displacement (c : ascii) : Z :=
  C.to_char
    (C.to_ulong (sizeof_complex * C.to_ulong (C.char_of_ascii c - C.char_of_ascii "a"))).

Definition undefined_instruction (code : string) : string :=
  ("undefined instruction " ++ C.c_str code ++ " (ASCII "
     ++ C.printf_x (match code with
                    | String c _ => C.char_of_ascii c
                    | EmptyString => 0
                    end) ++ ")" ++ String (ascii_of_nat 10) EmptyString)%string.

(** The [switch] statement on the operation byte; [code] is the text at the current
    instruction, [op] its first character. *)
Definition compile_switch (code : string) (op : ascii) (src_dsp dst_dsp : Z)
    (a : microasm) : result microasm :=
  let r := C.to_char offsetof_r in
  let i := C.to_char offsetof_i in
  if Ascii.eqb op "=" then
    let* a := movpd_memory_reg a src_dsp (xmm 0) in
    movpd_reg_memory a (xmm 0) dst_dsp
  else if Ascii.eqb op "+" then
    let* a := movpd_memory_reg a src_dsp (xmm 0) in
    let* a := addpd_memory_reg a dst_dsp (xmm 0) in
    movpd_reg_memory a (xmm 0) dst_dsp
  else if Ascii.eqb op "*" then
    let* a := movsd_memory_reg a (src_dsp + r) (xmm 0) in
    let* a := movsd_memory_reg a (src_dsp + i) (xmm 1) in
    let* a := movsd_memory_reg a (dst_dsp + r) (xmm 2) in
    let* a := movsd_memory_reg a (dst_dsp + i) (xmm 3) in
    let* a := movsd_reg_reg a (xmm 0) (xmm 4) in
    let* a := mulsd a (xmm 2) (xmm 4) in
    let* a := movsd_reg_reg a (xmm 1) (xmm 5) in
    let* a := mulsd a (xmm 3) (xmm 5) in
    let* a := subsd a (xmm 5) (xmm 4) in
    let* a := movsd_reg_memory a (xmm 4) (dst_dsp + r) in
    let* a := mulsd a (xmm 0) (xmm 3) in
    let* a := mulsd a (xmm 1) (xmm 2) in
    let* a := addsd a (xmm 3) (xmm 2) in
    movsd_reg_memory a (xmm 2) (dst_dsp + i)
  else Exit 1 (undefined_instruction code).

(** The [for (; *code; code += 3)] loop followed by the final [ret].  The
    string is the text [code] points to; it is followed in memory by its
    terminating NUL, and nothing is known beyond that. *)
Fixpoint compile_loop (code : string) (a : microasm) : result microasm :=
  match code with
  | EmptyString => asm_write a [0xc3]
  | String op tl =>
      if C.is_nul op then asm_write a [0xc3] else
      match tl with
      | EmptyString => Undefined ReadPastTerminator
      | String s EmptyString =>
          let* _ := compile_switch code op (displacement s) (displacement Ascii.zero) a in
          Undefined ReadPastTerminator
      | String s (String d rest) =>
          let* a := compile_switch code op (displacement s) (displacement d) a in
          compile_loop rest a
      end
  end.

(** [compile] returns the page as a function pointer; the routine is the
    sequence of bytes stored in it. *)
Definition compile (code : string) : result (list Z) :=
  let* a := compile_loop code {| dest := 0; image := [] |} in
  Ok (image a).

(** ** simple.c: [interpret] *)

(** [&registers[k]]: the element must exist when it is accessed. *)
Definition element (registers : list complex) (k : Z) : result nat :=
  if (0 <=? k) && (k <? Z.of_nat (length registers))
  then Ok (Z.to_nat k) else Undefined OutOfBounds.

Definition get (registers : list complex) (k : Z) : result complex :=
  let* n := element registers k in
  match registers !! n with
  | Some c => Ok c
  | None => Undefined OutOfBounds
  end.

(** [p->r = v] and [p->i = v]. *)
Definition set_r (registers : list complex) (k : Z) (v : float)
  : result (list complex) :=
  let* c := get registers k in
  Ok (<[Z.to_nat k := {| re := v; im := im c |}]> registers).

Definition set_i (registers : list complex) (k : Z) (v : float)
  : result (list complex) :=
  let* c := get registers k in
  Ok (<[Z.to_nat k := {| re := re c; im := v |}]> registers).

Definition reg_index (c : ascii) : Z :=
  C.char_of_ascii c - C.char_of_ascii "a".

(** The [switch] statement of the interpreter; [dst] and [src] are the
    indices of the two elements pointed to. *)
Definition interpret_switch (code : string) (op : ascii) (dst src : Z)
    (registers : list complex) : result (list complex) :=
  if Ascii.eqb op "=" then
    let* s := get registers src in
    let* registers := set_r registers dst (re s) in
    let* s := get registers src in
    set_i registers dst (im s)
  else if Ascii.eqb op "+" then
    let* d := get registers dst in
    let* s := get registers src in
    let* registers := set_r registers dst (re d + re s)%float in
    let* d := get registers dst in
    let* s := get registers src in
    set_i registers dst (im d + im s)%float
  else if Ascii.eqb op "*" then
    let* d := get registers dst in
    let* s := get registers src in
    let r := (re d * re s - im d * im s)%float in
    let i := (re d * im s + im d * re s)%float in
    let* registers := set_r registers dst r in
    set_i registers dst i
  else Exit 1 (undefined_instruction code).

Fixpoint interpret (registers : list complex) (code : string)
  : result (list complex) :=
  match code with
  | EmptyString => Ok registers
  | String op tl =>
      if C.is_nul op then Ok registers else
      match tl with
      | EmptyString => Undefined ReadPastTerminator
      | String s EmptyString =>
          let* _ := interpret_switch code op (reg_index Ascii.zero)
                      (reg_index s) registers in
          Undefined ReadPastTerminator
      | String s (String d rest) =>
          let* registers := interpret_switch code op (reg_index d)
                              (reg_index s) registers in
          interpret registers rest
      end
  end.

(** ** The x86-64 fragment the emitters produce

    Only what the routine can contain is modelled.  The pointer argument
    arrives in [%rdi] and is never modified, so a memory operand
    [disp8(%rdi)] is identified with its byte offset from the start of the
    register file, which the ABI aligns to 16 bytes.  Memory is the register
    file and nothing else: any access outside it, and any access that is not
    a whole 8-byte field, stops the machine.  Arithmetic is IEEE 754
    binary64 in the default rounding mode with exceptions masked; NaN
    payloads are not distinguished. *)

Module X86.

Inductive instr : Set :=
| MOVUPD_load (x : Z) (disp : Z)    (** 66 0F 10 /r  movupd disp(%rdi), %xmm *)
| MOVUPD_store (disp : Z) (x : Z)   (** 66 0F 11 /r  movupd %xmm, disp(%rdi) *)
| ADDPD_mem (x : Z) (disp : Z)      (** 66 0F 58 /r  addpd disp(%rdi), %xmm *)
| MOVSD_load (x : Z) (disp : Z)     (** F2 0F 10 /r  movsd disp(%rdi), %xmm *)
| MOVSD_store (disp : Z) (x : Z)    (** F2 0F 11 /r  movsd %xmm, disp(%rdi) *)
| MOVSD_rr (dst src : Z)            (** F2 0F 11 /r  movsd %src, %dst *)
| MULSD (dst src : Z)               (** F2 0F 59 /r  mulsd %src, %dst *)
| ADDSD (dst src : Z)               (** F2 0F 58 /r  addsd %src, %dst *)
| SUBSD (dst src : Z)               (** F2 0F 5C /r  subsd %src, %dst *)
| RET.                              (** C3 *)

(** *** Decoding *)

Definition modrm_mod (m : Z) : Z := Z.land (Z.shiftr m 6) 3.
Definition modrm_regf (m : Z) : Z := Z.land (Z.shiftr m 3) 7.
Definition modrm_rm (m : Z) : Z := Z.land m 7.

Definition sign_extend8 (b : Z) : Z := if b <? 128 then b else b - 256.

(** Decode the instruction at the head of [code]; the result carries the
    bytes that follow it. *)
Definition decode (code : list Z) : option (instr * list Z) :=
  match code with
  | [] => None
  | b0 :: rest0 =>
      if b0 =? 0xc3 then Some (RET, rest0) else
      match rest0 with
      | b1 :: opc :: m :: rest =>
          let reg := modrm_regf m in
          let rm := modrm_rm m in
          if negb (b1 =? 0x0f) then None
          else if (modrm_mod m =? 1) && (rm =? 7) then
            match rest with
            | d :: rest' =>
                let disp := sign_extend8 d in
                if b0 =? 0x66 then
                  if opc =? 0x10 then Some (MOVUPD_load reg disp, rest')
                  else if opc =? 0x11 then Some (MOVUPD_store disp reg, rest')
                  else if opc =? 0x58 then Some (ADDPD_mem reg disp, rest')
                  else None
                else if b0 =? 0xf2 then
                  if opc =? 0x10 then Some (MOVSD_load reg disp, rest')
                  else if opc =? 0x11 then Some (MOVSD_store disp reg, rest')
                  else None
                else None
            | [] => None
            end
          else if (modrm_mod m =? 3) && (b0 =? 0xf2) then
            if opc =? 0x11 then Some (MOVSD_rr rm reg, rest)
            else if opc =? 0x59 then Some (MULSD reg rm, rest)
            else if opc =? 0x58 then Some (ADDSD reg rm, rest)
            else if opc =? 0x5c then Some (SUBSD reg rm, rest)
            else None
          else None
      | _ => None
      end
  end.

(** *** Machine state *)

Record vec128 : Set := Vec { lo : float; hi : float }.

Definition xmm_file : Set := Z -> vec128.

Definition upd (f : xmm_file) (x : Z) (v : vec128) : xmm_file :=
  fun y => if y =? x then v else f y.

Record machine : Set := Machine { xmms : xmm_file; mem : list complex }.

(** An 8-byte access at byte offset [off] of the register file. *)
Definition load64 (m : list complex) (off : Z) : option float :=
  if (0 <=? off) && (off mod 8 =? 0) then
    match m !! Z.to_nat (off / 16) with
    | Some c => Some (if off mod 16 =? 0 then re c else im c)
    | None => None
    end
  else None.

Definition store64 (m : list complex) (off : Z) (v : float)
  : option (list complex) :=
  if (0 <=? off) && (off mod 8 =? 0) then
    match m !! Z.to_nat (off / 16) with
    | Some c =>
        Some (<[Z.to_nat (off / 16) :=
                  if off mod 16 =? 0 then {| re := v; im := im c |}
                  else {| re := re c; im := v |}]> m)
    | None => None
    end
  else None.

Definition load128 (m : list complex) (off : Z) : option vec128 :=
  match load64 m off, load64 m (off + 8) with
  | Some l, Some h => Some {| lo := l; hi := h |}
  | _, _ => None
  end.

Definition store128 (m : list complex) (off : Z) (v : vec128)
  : option (list complex) :=
  match load64 m off, load64 m (off + 8) with
  | Some _, Some _ =>
      match store64 m off (lo v) with
      | Some m' => store64 m' (off + 8) (hi v)
      | None => None
      end
  | _, _ => None
  end.

(** One instruction other than [ret]. *)
Definition step (i : instr) (st : machine) : option machine :=
  let x := xmms st in
  let m := mem st in
  match i with
  | MOVUPD_load r d =>
      match load128 m d with
      | Some v => Some {| xmms := upd x r v; mem := m |}
      | None => None
      end
  | MOVUPD_store d r =>
      match store128 m d (x r) with
      | Some m' => Some {| xmms := x; mem := m' |}
      | None => None
      end
  | ADDPD_mem r d =>
      if d mod 16 =? 0 then
        match load128 m d with
        | Some v =>
            Some {| xmms := upd x r {| lo := (lo (x r) + lo v)%float;
                                       hi := (hi (x r) + hi v)%float |};
                    mem := m |}
        | None => None
        end
      else None
  | MOVSD_load r d =>
      match load64 m d with
      | Some v => Some {| xmms := upd x r {| lo := v; hi := 0%float |}; mem := m |}
      | None => None
      end
  | MOVSD_store d r =>
      match store64 m d (lo (x r)) with
      | Some m' => Some {| xmms := x; mem := m' |}
      | None => None
      end
  | MOVSD_rr dst src =>
      Some {| xmms := upd x dst {| lo := lo (x src); hi := hi (x dst) |}; mem := m |}
  | MULSD dst src =>
      Some {| xmms := upd x dst {| lo := (lo (x dst) * lo (x src))%float;
                                   hi := hi (x dst) |}; mem := m |}
  | ADDSD dst src =>
      Some {| xmms := upd x dst {| lo := (lo (x dst) + lo (x src))%float;
                                   hi := hi (x dst) |}; mem := m |}
  | SUBSD dst src =>
      Some {| xmms := upd x dst {| lo := (lo (x dst) - lo (x src))%float;
                                   hi := hi (x dst) |}; mem := m |}
  | RET => None
  end.

(** Fetch, decode and execute from the head of [code] until [ret]. *)
Fixpoint run (fuel : nat) (code : list Z) (st : machine) : option machine :=
  match fuel with
  | O => None
  | S fuel' =>
      match decode code with
      | Some (RET, _) => Some st
      | Some (i, rest) =>
          match step i st with
          | Some st' => run fuel' rest st'
          | None => None
          end
      | None => None
      end
  end.

End X86.

(** The call of the routine through the function pointer, with the register file in [%rdi];
    [x] is the content of the vector registers at the call.  The call
    returns nothing; its effect is the new content of the register file. *)
Definition invoke (fn : list Z) (registers : list complex) (x : X86.xmm_file)
  : option (list complex) :=
  match X86.run (S (length fn)) fn {| X86.xmms := x; X86.mem := registers |} with
  | Some st => Some (X86.mem st)
  | None => None
  end.

(** ** Auxiliary definitions used to state the results *)

Module Listing.
Import X86.

(** The byte sequence of an instruction, inverse to [decode]. *)
Definition encode (i : instr) : list Z :=
  match i with
  | MOVUPD_load x d  => [0x66; 0x0f; 0x10; 0x47 + 8 * x; d mod 256]
  | MOVUPD_store d x => [0x66; 0x0f; 0x11; 0x47 + 8 * x; d mod 256]
  | ADDPD_mem x d    => [0x66; 0x0f; 0x58; 0x47 + 8 * x; d mod 256]
  | MOVSD_load x d   => [0xf2; 0x0f; 0x10; 0x47 + 8 * x; d mod 256]
  | MOVSD_store d x  => [0xf2; 0x0f; 0x11; 0x47 + 8 * x; d mod 256]
  | MOVSD_rr dst src => [0xf2; 0x0f; 0x11; 0xc0 + 8 * src + dst]
  | MULSD dst src    => [0xf2; 0x0f; 0x59; 0xc0 + 8 * dst + src]
  | ADDSD dst src    => [0xf2; 0x0f; 0x58; 0xc0 + 8 * dst + src]
  | SUBSD dst src    => [0xf2; 0x0f; 0x5c; 0xc0 + 8 * dst + src]
  | RET              => [0xc3]
  end.

Definition assemble (l : list instr) : list Z := flat_map encode l.

Definition reg_ok (x : Z) : Prop := 0 <= x < 8.
Definition disp_ok (d : Z) : Prop := -128 <= d < 128.

(** Instructions that have an encoding in the fragment. *)
Definition encodable (i : instr) : Prop :=
  match i with
  | MOVUPD_load x d | ADDPD_mem x d | MOVSD_load x d => reg_ok x /\ disp_ok d
  | MOVUPD_store d x | MOVSD_store d x => reg_ok x /\ disp_ok d
  | MOVSD_rr a b | MULSD a b | ADDSD a b | SUBSD a b => reg_ok a /\ reg_ok b
  | RET => True
  end.

Definition is_ret (i : instr) : bool :=
  match i with RET => true | _ => false end.

(** Decode a whole byte sequence. *)
Fixpoint disassemble (fuel : nat) (code : list Z) : option (list instr) :=
  match code with
  | [] => Some []
  | _ :: _ =>
      match fuel with
      | O => None
      | S fuel' =>
          match decode code with
          | Some (i, rest) =>
              match disassemble fuel' rest with
              | Some l => Some (i :: l)
              | None => None
              end
          | None => None
          end
      end
  end.

(** Execute a list of instructions other than [ret]. *)
Fixpoint exec (l : list instr) (st : machine) : option machine :=
  match l with
  | [] => Some st
  | i :: l' =>
      match step i st with
      | Some st' => exec l' st'
      | None => None
      end
  end.

(** The memory operand of an instruction: byte offset and width. *)
Definition operand (i : instr) : option (Z * Z) :=
  match i with
  | MOVUPD_load _ d | MOVUPD_store d _ | ADDPD_mem _ d => Some (d, 16)
  | MOVSD_load _ d | MOVSD_store d _ => Some (d, 8)
  | _ => None
  end.

(** The operand lies inside a register file of [n] complex values. *)
Definition inside (n : Z) (i : instr) : Prop :=
  match operand i with
  | Some (off, width) => 0 <= off /\ off + width <= sizeof_complex * n
  | None => True
  end.

(** The instructions emitted by the three cases of the [switch]. *)
Definition assign (src_dsp dst_dsp : Z) : list instr :=
  [MOVUPD_load 0 (C.to_char src_dsp);
   MOVUPD_store (C.to_char dst_dsp) 0].

Definition add (src_dsp dst_dsp : Z) : list instr :=
  [MOVUPD_load 0 (C.to_char src_dsp);
   ADDPD_mem 0 (C.to_char dst_dsp);
   MOVUPD_store (C.to_char dst_dsp) 0].

Definition multiply (src_dsp dst_dsp : Z) : list instr :=
  [MOVSD_load 0 (C.to_char (src_dsp + offsetof_r));
   MOVSD_load 1 (C.to_char (src_dsp + offsetof_i));
   MOVSD_load 2 (C.to_char (dst_dsp + offsetof_r));
   MOVSD_load 3 (C.to_char (dst_dsp + offsetof_i));
   MOVSD_rr 4 0;
   MULSD 4 2;
   MOVSD_rr 5 1;
   MULSD 5 3;
   SUBSD 4 5;
   MOVSD_store (C.to_char (dst_dsp + offsetof_r)) 4;
   MULSD 3 0;
   MULSD 2 1;
   ADDSD 2 3;
   MOVSD_store (C.to_char (dst_dsp + offsetof_i)) 2].

Definition select (op : ascii) (src_dsp dst_dsp : Z) : option (list instr) :=
  if Ascii.eqb op "=" then Some (assign src_dsp dst_dsp)
  else if Ascii.eqb op "+" then Some (add src_dsp dst_dsp)
  else if Ascii.eqb op "*" then Some (multiply src_dsp dst_dsp)
  else None.

(** The listing of a whole program, without the final [ret]. *)
Fixpoint body (code : string) : option (list instr) :=
  match code with
  | EmptyString => Some []
  | String op tl =>
      if C.is_nul op then Some [] else
      match tl with
      | String s (String d rest) =>
          match select op (displacement s) (displacement d), body rest with
          | Some l, Some l' => Some (l ++ l')
          | _, _ => None
          end
      | _ => None
      end
  end.

End Listing.

(** Both operand letters of every instruction name one of the first [n]
    registers. *)
Definition operand_ok (n : Z) (c : ascii) : bool :=
  (0 <=? reg_index c) && (reg_index c <? n).

Fixpoint operands_ok (n : Z) (code : string) : bool :=
  match code with
  | String op (String s (String d rest)) =>
      C.is_nul op || (operand_ok n s && operand_ok n d && operands_ok n rest)
  | _ => true
  end.

(** A program as a sequence of three-character instructions. *)
Definition insn : Set := (ascii * ascii * ascii)%type.

Definition known (op : ascii) : bool :=
  Ascii.eqb op "=" || Ascii.eqb op "+" || Ascii.eqb op "*".

Fixpoint text (p : list insn) (tail : string) : string :=
  match p with
  | [] => tail
  | (op, s, d) :: p' => String op (String s (String d (text p' tail)))
  end.

(** Number of bytes [compile] emits for an operation. *)
Definition emitted (op : ascii) : Z :=
  if Ascii.eqb op "=" then 10
  else if Ascii.eqb op "+" then 15
  else if Ascii.eqb op "*" then 62
  else 0.

Fixpoint size (p : list insn) : Z :=
  match p with
  | [] => 0
  | (op, _, _) :: p' => emitted op + size p'
  end.

Definition known_insn (i : insn) : Prop := known (fst (fst i)) = true.

(** Emission of a list of instructions through [asm_write]. *)
Definition emit (a : microasm) (l : list X86.instr) : result microasm :=
  asm_write a (Listing.assemble l).

(** The state of the assembler after [bytes] have been stored. *)
Definition stored (a : microasm) (bytes : list Z) : result microasm :=
  Ok {| dest := dest a + Z.of_nat (length bytes); image := image a ++ bytes |}.

(** An instruction of the fragment other than [ret]. *)
Definition plain (i : X86.instr) : Prop :=
  Listing.encodable i /\ i <> X86.RET.

(** The value the interpreter leaves in the destination register [d] for
    source register [s]. *)
Definition apply_op (op : ascii) (s d : complex) : complex :=
  if Ascii.eqb op "=" then s
  else if Ascii.eqb op "+" then
    {| re := (re d + re s)%float; im := (im d + im s)%float |}
  else
    {| re := (re d * re s - im d * im s)%float;
       im := (re d * im s + im d * re s)%float |}.

(** Vector registers holding zeros, for concrete calls. *)
Definition idle : X86.xmm_file := fun _ => {| X86.lo := 0; X86.hi := 0 |}.

(** ** hardcoded.c

    [interpret] ignores its [code] argument and performs the Mandelbrot step
    on the first two registers: [b = b * b], then [b += a]. *)

Module Hardcoded.

Definition interpret (registers : list complex) (code : string)
  : result (list complex) :=
  let a := 0 in
  let b := 1 in
  let* rb := get registers b in
  let r := (re rb * re rb - im rb * im rb)%float in
  let i := (re rb * im rb + im rb * re rb)%float in
  let* registers := set_r registers b r in
  let* registers := set_i registers b i in
  let* rb := get registers b in
  let* ra := get registers a in
  let* registers := set_r registers b (re rb + re ra)%float in
  let* rb := get registers b in
  let* ra := get registers a in
  set_i registers b (im rb + im ra)%float.

End Hardcoded.

(** ** The rendering loops of the three [main] functions

    [argv[1]] is the program text; the result of [main] is what it writes to
    [stdout] when it returns.  When the process exits or runs into undefined
    behaviour the partial output is not part of the outcome. *)

(** [#define sqr(x) ((x) * (x))] *)
Definition sqr (x : float) : float := (x * x)%float.

(** Conversion of a non-negative [int] to [double]. *)
Definition to_double (n : Z) : float := PrimFloat.of_uint63 (Uint63.of_Z n).

Definition origin : complex := {| re := 0; im := 0 |}.

(** [for (i = ...; i < bound && sqr(registers[1].r) + sqr(registers[1].i) < 4;
    ++i) call(registers);] with [n] iterations left before [i] reaches the
    bound.  The result is the final value of [i]. *)
Fixpoint iterations (n : nat) (i : Z)
    (call : Z -> list complex -> result (list complex))
    (registers : list complex) : result Z :=
  match n with
  | O => Ok i
  | S n' =>
      let* b := get registers 1 in
      if (sqr (re b) + sqr (im b) <? 4)%float then
        let* registers := call i registers in
        iterations n' (i + 1) call registers
      else Ok i
  end.

(** [for (v = 0; v < n; ++v) body(v)], collecting what the bodies produce. *)
Fixpoint for_each {A : Type} (body : Z -> result A) (values : list Z)
  : result (list A) :=
  match values with
  | [] => Ok []
  | v :: rest =>
      let* r := body v in
      let* rs := for_each body rest in
      Ok (r :: rs)
  end.

Definition upto (n : nat) : list Z := map Z.of_nat (seq 0 n).

Definition newline : string := String (ascii_of_nat 10) EmptyString.

(** What [%d] prints. *)
Definition printf_d (v : Z) : string :=
  DecimalString.NilZero.string_of_int (Z.to_int v).

(** The characters [fwrite] sends for an array of [char]. *)
Definition chars (bytes : list Z) : string :=
  string_of_list_ascii (map (fun b => ascii_of_N (Z.to_N b)) bytes).

(** The call of a compiled routine from C; [x] is whatever the vector
    registers hold at that moment.  A routine that leaves the register file
    is undefined behaviour. *)
Definition call_routine (fn : list Z) (x : X86.xmm_file)
    (registers : list complex) : result (list complex) :=
  match invoke fn registers x with
  | Some registers' => Ok registers'
  | None => Undefined OutOfBounds
  end.

(** *** mandeljit.c: [main] *)

Module Mandeljit.

Definition seed (x y : Z) : list complex :=
  [ {| re := (2 * 0x1.999999999999ap+0 * (to_double x / 1600 - 0.5))%float;
       im := (2 * 0x1.ccccccccccccdp-1 * (to_double y / 900 - 0.5))%float |};
    origin; origin; origin ].

(** The inner [for] loop; [scratch y x i] is the content of the vector
    registers at call [i] for the pixel. *)
Definition count (fn : list Z) (scratch : Z -> Z -> Z -> X86.xmm_file)
    (x y : Z) : result Z :=
  iterations 256 0 (fun i => call_routine fn (scratch y x i)) (seed x y).

(** [line[x] = i;], as the byte later written. *)
Definition pixel (fn : list Z) (scratch : Z -> Z -> Z -> X86.xmm_file)
    (x y : Z) : result Z :=
  let* i := count fn scratch x y in
  Ok (C.byte_of (C.to_char i)).

Definition line (fn : list Z) (scratch : Z -> Z -> Z -> X86.xmm_file)
    (y : Z) : result (list Z) :=
  for_each (fun x => pixel fn scratch x y) (upto 1600).

Definition header : string :=
  ("P5" ++ newline ++ printf_d 1600 ++ " " ++ printf_d 900 ++ newline
     ++ printf_d 255 ++ newline)%string.

Definition main (argv1 : string) (scratch : Z -> Z -> Z -> X86.xmm_file)
  : result string :=
  let* fn := compile argv1 in
  let* lines := for_each (line fn scratch) (upto 900) in
  Ok (header ++ chars (concat lines))%string.

End Mandeljit.

(** *** hardcoded.c: [main] *)

Module HardcodedMain.

Definition seed (x y : Z) : list complex :=
  [ {| re := (2 * 0x1.999999999999ap+0 * (to_double x / 1600 - 0.5))%float;
       im := (2 * 0x1.ccccccccccccdp-1 * (to_double y / 900 - 0.5))%float |};
    origin; origin; origin ].

Definition count (argv1 : string) (x y : Z) : result Z :=
  iterations 256 0 (fun _ registers => Hardcoded.interpret registers argv1)
    (seed x y).

Definition pixel (argv1 : string) (x y : Z) : result Z :=
  let* i := count argv1 x y in
  Ok (C.byte_of (C.to_char i)).

Definition line (argv1 : string) (y : Z) : result (list Z) :=
  for_each (fun x => pixel argv1 x y) (upto 1600).

Definition header : string :=
  ("P5" ++ newline ++ printf_d 1600 ++ " " ++ printf_d 900 ++ newline
     ++ printf_d 255 ++ newline)%string.

Definition main (argv1 : string) : result string :=
  let* lines := for_each (line argv1) (upto 900) in
  Ok (header ++ chars (concat lines))%string.

End HardcodedMain.

(** *** simple.c: [main] *)

Module Simple.

Definition seed (x y : Z) : list complex :=
  [ {| re := (-2 + 4 * (to_double x / 800))%float;
       im := (-2 + 4 * (to_double y / 800))%float |};
    origin; origin; origin ].

Definition count (argv1 : string) (x y : Z) : result Z :=
  iterations 255 0 (fun _ registers => interpret registers argv1) (seed x y).

(** [printf(" %d", 255 - i);] *)
Definition pixel (argv1 : string) (x y : Z) : result string :=
  let* i := count argv1 x y in
  Ok (" " ++ printf_d (255 - i))%string.

Definition line (argv1 : string) (y : Z) : result string :=
  let* pixels := for_each (fun x => pixel argv1 x y) (upto 800) in
  Ok (String.concat EmptyString pixels ++ newline)%string.

Definition header : string :=
  ("P2" ++ newline ++ printf_d 800 ++ " " ++ printf_d 800 ++ newline
     ++ printf_d 255 ++ newline)%string.

Definition main (argv1 : string) : result string :=
  let* lines := for_each (line argv1) (upto 800) in
  Ok (header ++ String.concat EmptyString lines)%string.

End Simple.

(** ** jitproto.c

    [compile_identity] stores four bytes, [mov %rdi, %rax; ret].  The two
    instructions are given a model of their own: general registers are
    numbered as in the encoding ([%rax] is 0, [%rdi] is 7) and hold 64-bit
    values. *)

Module Jitproto.

(** [memory[i++] = b] for the four bytes, in order; [mmap] is taken to
    succeed. *)
Definition compile_identity : list Z :=
  map (fun b => C.byte_of (C.to_char b)) [0x48; 0x8b; 0xc7; 0xc3].

Inductive instr : Set :=
| MOV (dst src : Z)   (** REX.W 8B /r  mov %src, %dst *)
| RET.                (** C3 *)

Definition decode (code : list Z) : option (instr * list Z) :=
  match code with
  | [] => None
  | b0 :: rest0 =>
      if b0 =? 0xc3 then Some (RET, rest0) else
      match rest0 with
      | b1 :: m :: rest =>
          if (b0 =? 0x48) && (b1 =? 0x8b) && (X86.modrm_mod m =? 3)
          then Some (MOV (X86.modrm_regf m) (X86.modrm_rm m), rest)
          else None
      | _ => None
      end
  end.

Definition rax : Z := 0.
Definition rdi : Z := 7.

Fixpoint run (fuel : nat) (code : list Z) (regs : Z -> Z) : option (Z -> Z) :=
  match fuel with
  | O => None
  | S fuel' =>
      match decode code with
      | Some (RET, _) => Some regs
      | Some (MOV dst src, rest) =>
          run fuel' rest (fun r => if r =? dst then regs src else regs r)
      | None => None
      end
  end.

(** The call [f(x)] through the function pointer: the argument is passed in [%rdi],
    the result is returned in [%rax]; [regs] holds the other registers. *)
Definition call (f : list Z) (regs : Z -> Z) (x : Z) : option Z :=
  match run (S (length f)) f
          (fun r => if r =? rdi then x mod 2 ^ 64 else regs r) with
  | Some regs' => Some (C.wrap_signed 64 (regs' rax))
  | None => None
  end.

End Jitproto.

(** [r] is the state after storing, behind the content of [a], bytes that
    decode to [i]. *)
Definition emits (r : result microasm) (a : microasm) (i : X86.instr) : Prop :=
  exists bytes, r = stored a bytes /\
                forall rest, X86.decode (bytes ++ rest) = Some (i, rest).

(** A known operation whose operands name two of the first [n] registers. *)
Definition insn_ok (n : Z) (i : insn) : Prop :=
  known (fst (fst i)) = true /\
  operand_ok n (snd (fst i)) = true /\ operand_ok n (snd i) = true.

(** The index of the destination register of an instruction. *)
Definition dst_index (i : insn) : Z := reg_index (snd i).

(** * Proofs *)

Import X86 Listing.

(** * Facts about the C conversions *)

Lemma to_char_range x : -128 <= C.to_char x < 128.
Proof. unfold C.to_char, C.wrap_signed. change (2 ^ (8 - 1)) with 128. change (2 ^ 8) with 256.
  pose proof (Z.mod_pos_bound (x + 128) 256). lia. Qed.

Lemma to_char_small x : -128 <= x < 128 -> C.to_char x = x.
Proof. intros H. unfold C.to_char, C.wrap_signed. change (2 ^ (8 - 1)) with 128. change (2 ^ 8) with 256.
  rewrite Z.mod_small by lia. lia. Qed.

Lemma to_char_idem x : C.to_char (C.to_char x) = C.to_char x.
Proof. apply to_char_small, to_char_range. Qed.

Lemma byte_of_to_char x : C.byte_of (C.to_char x) = x mod 256.
Proof.
  unfold C.byte_of, C.to_char, C.wrap_signed. change (2 ^ (8 - 1)) with 128. change (2 ^ 8) with 256.
  rewrite Zminus_mod_idemp_l. f_equal. lia.
Qed.

Lemma to_char_mod x : C.to_char (x mod 256) = C.to_char x.
Proof.
  unfold C.to_char, C.wrap_signed. change (2 ^ (8 - 1)) with 128. change (2 ^ 8) with 256.
  rewrite Zplus_mod_idemp_l. reflexivity.
Qed.

Lemma sign_extend8_byte x : X86.sign_extend8 (x mod 256) = C.to_char x.
Proof.
  unfold X86.sign_extend8, C.to_char, C.wrap_signed. change (2 ^ (8 - 1)) with 128. change (2 ^ 8) with 256.
  destruct (Z.ltb_spec (x mod 256) 128); Z.div_mod_to_equations; lia.
Qed.

(** * Facts about binary64 arithmetic *)

Module Double.
Import SpecFloat.

Lemma SFmul_comm prec emax x y : SFmul prec emax x y = SFmul prec emax y x.
Proof.
  destruct x as [sx|sx| |sx mx ex], y as [sy|sy| |sy my ey]; simpl;
    rewrite ?(xorb_comm sx sy); try reflexivity.
  now rewrite Pos.mul_comm, Z.add_comm.
Qed.

Lemma SFadd_comm prec emax x y : SFadd prec emax x y = SFadd prec emax y x.
Proof.
  destruct x as [sx|sx| |sx mx ex], y as [sy|sy| |sy my ey]; simpl;
    try reflexivity; try (destruct sx, sy; reflexivity).
  now rewrite Z.min_comm, Z.add_comm.
Qed.

Lemma mul_comm (x y : float) : (x * y = y * x)%float.
Proof.
  apply Prim2SF_inj. rewrite !mul_spec. apply SFmul_comm.
Qed.

Lemma add_comm (x y : float) : (x + y = y + x)%float.
Proof.
  apply Prim2SF_inj. rewrite !add_spec. apply SFadd_comm.
Qed.
End Double.

(** * The assembler *)

Lemma bind_ok {A B} (m : result A) (k : A -> result B) b :
  bind m k = Ok b -> exists a, m = Ok a /\ k a = Ok b.
Proof. destruct m; simpl; intros H; try discriminate. eauto. Qed.

Lemma store_byte_ok a b a' :
  store_byte a b = Ok a' ->
  dest a < PAGE_SIZE /\ dest a' = dest a + 1 /\ image a' = image a ++ [b mod 256].
Proof.
  unfold store_byte. destruct (Z.ltb_spec (dest a) PAGE_SIZE); intros [= <-]; simpl.
  now rewrite byte_of_to_char.
Qed.

Lemma store_byte_room a b :
  dest a < PAGE_SIZE ->
  store_byte a b = Ok {| dest := dest a + 1; image := image a ++ [b mod 256] |}.
Proof.
  intros H. unfold store_byte. destruct (Z.ltb_spec (dest a) PAGE_SIZE); [|lia].
  now rewrite byte_of_to_char.
Qed.

Lemma asm_write_spec bytes : forall a a',
  asm_write a bytes = Ok a' ->
  dest a' = dest a + Z.of_nat (length bytes) /\
  image a' = image a ++ map (fun b => b mod 256) bytes /\
  (bytes <> [] -> dest a' <= PAGE_SIZE).
Proof.
  induction bytes as [|b bs IH]; simpl; intros a a' H.
  - injection H as <-. rewrite app_nil_r. split; [lia|]. split; [reflexivity|congruence].
  - apply bind_ok in H as (a1 & H1 & H2).
    apply store_byte_ok in H1 as (Hlt & Hd & Hi).
    apply IH in H2 as (Hd2 & Hi2 & Hle).
    rewrite Hd2, Hi2, Hd, Hi, <- app_assoc. simpl.
    split; [lia|]. split; [reflexivity|]. intros _.
    destruct bs as [|b' bs']; [simpl in *; lia|]. rewrite <- Hd, <- Hd2. apply Hle. discriminate.
Qed.

Lemma asm_write_room bytes : forall a,
  dest a + Z.of_nat (length bytes) <= PAGE_SIZE ->
  asm_write a bytes =
    Ok {| dest := dest a + Z.of_nat (length bytes);
          image := image a ++ map (fun b => b mod 256) bytes |}.
Proof.
  induction bytes as [|b bs IH]; intros a H.
  - simpl. rewrite app_nil_r, Z.add_0_r. now destruct a.
  - cbn [asm_write length] in *. rewrite store_byte_room by lia. cbn [bind].
    rewrite IH by (simpl; lia). simpl. f_equal. f_equal; [lia|].
    now rewrite <- app_assoc.
Qed.

(** * Encoding and decoding *)

Ltac split_reg H :=
  match type of H with
  | reg_ok ?x =>
      let E := fresh in
      assert (E : x = 0 \/ x = 1 \/ x = 2 \/ x = 3 \/ x = 4 \/ x = 5 \/ x = 6 \/ x = 7)
        by (unfold reg_ok in H; lia);
      clear H; destruct E as [->|[->|[->|[->|[->|[->|[->| ->]]]]]]]
  end.

Lemma decode_encode i rest :
  encodable i -> i <> RET -> decode (encode i ++ rest) = Some (i, rest).
Proof.
  destruct i; simpl encodable; intros Hi Hret; [..|congruence];
    destruct Hi as [H1 H2].
  1-5: split_reg H1; cbv [encode app]; cbv -[sign_extend8 Z.modulo];
       rewrite sign_extend8_byte, to_char_small by exact H2; reflexivity.
  all: split_reg H1; split_reg H2; reflexivity.
Qed.

Lemma decode_ret rest : decode (0xc3 :: rest) = Some (RET, rest).
Proof. reflexivity. Qed.

Lemma asm_write_norm bytes : forall bytes' a,
  map (fun b => b mod 256) bytes = map (fun b => b mod 256) bytes' ->
  asm_write a bytes = asm_write a bytes'.
Proof.
  induction bytes as [|b bs IH]; intros [|b' bs'] a H; try discriminate; [reflexivity|].
  simpl in H. injection H as Hb Hbs. simpl.
  replace (store_byte a b') with (store_byte a b).
  - destruct (store_byte a b); simpl; auto.
  - unfold store_byte. now rewrite !byte_of_to_char, Hb.
Qed.

Lemma asm_write_app l1 l2 a :
  asm_write a (l1 ++ l2) = let* a' := asm_write a l1 in asm_write a' l2.
Proof.
  revert a. induction l1 as [|b l1 IH]; intros a; simpl; [reflexivity|].
  destruct (store_byte a b); simpl; auto.
Qed.

Lemma emit_cons i l a :
  emit a (i :: l) = let* a' := emit a [i] in emit a' l.
Proof.
  unfold emit, assemble. simpl flat_map. rewrite app_nil_r. apply asm_write_app.
Qed.

Ltac emitter H :=
  split_reg H; unfold emit, assemble; simpl flat_map;
  apply asm_write_norm; simpl; rewrite ?Z.mod_mod by lia; reflexivity.

Lemma movpd_memory_reg_emit a disp reg :
  reg_ok reg -> movpd_memory_reg a disp reg = emit a [MOVUPD_load reg (C.to_char disp)].
Proof. intros H. emitter H. Qed.
Lemma movpd_reg_memory_emit a disp reg :
  reg_ok reg -> movpd_reg_memory a reg disp = emit a [MOVUPD_store (C.to_char disp) reg].
Proof. intros H. emitter H. Qed.
Lemma addpd_memory_reg_emit a disp reg :
  reg_ok reg -> addpd_memory_reg a disp reg = emit a [ADDPD_mem reg (C.to_char disp)].
Proof. intros H. emitter H. Qed.
Lemma movsd_memory_reg_emit a disp reg :
  reg_ok reg -> movsd_memory_reg a disp reg = emit a [MOVSD_load reg (C.to_char disp)].
Proof. intros H. emitter H. Qed.
Lemma movsd_reg_memory_emit a disp reg :
  reg_ok reg -> movsd_reg_memory a reg disp = emit a [MOVSD_store (C.to_char disp) reg].
Proof. intros H. emitter H. Qed.
Lemma movsd_reg_reg_emit a src dst :
  reg_ok src -> reg_ok dst -> movsd_reg_reg a src dst = emit a [MOVSD_rr dst src].
Proof. intros H H'. split_reg H; emitter H'. Qed.
Lemma mulsd_emit a src dst :
  reg_ok src -> reg_ok dst -> mulsd a src dst = emit a [MULSD dst src].
Proof. intros H H'. split_reg H; emitter H'. Qed.
Lemma addsd_emit a src dst :
  reg_ok src -> reg_ok dst -> addsd a src dst = emit a [ADDSD dst src].
Proof. intros H H'. split_reg H; emitter H'. Qed.
Lemma subsd_emit a src dst :
  reg_ok src -> reg_ok dst -> subsd a src dst = emit a [SUBSD dst src].
Proof. intros H H'. split_reg H; emitter H'. Qed.

Lemma reg_ok_xmm n : (0 <=? n) && (n <? 8) = true -> reg_ok (xmm n).
Proof. unfold reg_ok, xmm. lia. Qed.

Lemma bind_cong {A B} (m m' : result A) (k k' : A -> result B) :
  m = m' -> (forall a, k a = k' a) -> bind m k = bind m' k'.
Proof. intros <- H. destruct m; simpl; auto. Qed.

Ltac emitted_by :=
  lazymatch goal with
  | |- movpd_memory_reg _ _ _ = _ => apply movpd_memory_reg_emit
  | |- movpd_reg_memory _ _ _ = _ => apply movpd_reg_memory_emit
  | |- addpd_memory_reg _ _ _ = _ => apply addpd_memory_reg_emit
  | |- movsd_memory_reg _ _ _ = _ => apply movsd_memory_reg_emit
  | |- movsd_reg_memory _ _ _ = _ => apply movsd_reg_memory_emit
  | |- movsd_reg_reg _ _ _ = _ => apply movsd_reg_reg_emit
  | |- mulsd _ _ _ = _ => apply mulsd_emit
  | |- addsd _ _ _ = _ => apply addsd_emit
  | |- subsd _ _ _ = _ => apply subsd_emit
  end;
  unfold reg_ok; lia.

Lemma compile_switch_select code op src_dsp dst_dsp a :
  compile_switch code op src_dsp dst_dsp a =
    match select op src_dsp dst_dsp with
    | Some l => emit a l
    | None => Exit 1 (undefined_instruction code)
    end.
Proof.
  unfold compile_switch, select, assign, add, multiply, xmm.
  change (C.to_char offsetof_r) with offsetof_r.
  change (C.to_char offsetof_i) with offsetof_i.
  destruct (Ascii.eqb op "=");
    [|destruct (Ascii.eqb op "+"); [|destruct (Ascii.eqb op "*"); [|reflexivity]]];
    cbv zeta;
    repeat (rewrite (emit_cons _ (_ :: _)); apply bind_cong; [emitted_by|]; intros ?);
    emitted_by.
Qed.

Lemma string_ind3 (P : string -> Prop) :
  P EmptyString ->
  (forall a, P (String a EmptyString)) ->
  (forall a b, P (String a (String b EmptyString))) ->
  (forall a b c s, P s -> P (String a (String b (String c s)))) ->
  forall s, P s.
Proof.
  intros H0 H1 H2 H3 s.
  assert (H : P s /\ (forall a, P (String a s)) /\ (forall a b, P (String a (String b s)))).
  { induction s as [|c s (IH0 & IH1 & IH2)]; [now auto|].
    split; [apply IH1|]. split; [intros a; apply IH2|].
    intros a b. apply H3, IH0. }
  apply H.
Qed.

Lemma encode_bytes i : encodable i -> map (fun b => b mod 256) (encode i) = encode i.
Proof.
  destruct i; simpl encodable; intros H; [..|reflexivity];
    destruct H as [H1 H2].
  1-5: split_reg H1; cbn [encode map]; rewrite Z.mod_mod by lia; reflexivity.
  all: split_reg H1; split_reg H2; reflexivity.
Qed.

Lemma assemble_bytes l :
  Forall encodable l -> map (fun b => b mod 256) (assemble l) = assemble l.
Proof.
  induction 1 as [|i l Hi _ IH]; [reflexivity|].
  unfold assemble in *. simpl. now rewrite map_app, IH, encode_bytes.
Qed.

Lemma assemble_app l1 l2 : assemble (l1 ++ l2) = assemble l1 ++ assemble l2.
Proof. unfold assemble. now rewrite flat_map_app. Qed.

Lemma emit_ok a l a' :
  Forall encodable l -> emit a l = Ok a' ->
  dest a' = dest a + Z.of_nat (length (assemble l)) /\
  image a' = image a ++ assemble l.
Proof.
  intros Hl H. apply asm_write_spec in H as (Hd & Hi & _).
  now rewrite assemble_bytes in Hi.
Qed.

Lemma emit_room a l :
  Forall encodable l ->
  dest a + Z.of_nat (length (assemble l)) <= PAGE_SIZE ->
  emit a l = Ok {| dest := dest a + Z.of_nat (length (assemble l));
                   image := image a ++ assemble l |}.
Proof.
  intros Hl H. unfold emit. rewrite asm_write_room by exact H.
  now rewrite assemble_bytes.
Qed.

Lemma select_plain op s d l : select op s d = Some l -> Forall plain l.
Proof.
  unfold select, assign, add, multiply.
  pose proof to_char_range as R.
  destruct (Ascii.eqb op "=");
    [|destruct (Ascii.eqb op "+"); [|destruct (Ascii.eqb op "*"); [|discriminate]]];
    intros [= <-]; repeat constructor; try discriminate;
    unfold reg_ok, disp_ok; try lia; apply R.
Qed.

Lemma body_plain : forall code l, body code = Some l -> Forall plain l.
Proof.
  induction code as [|c0|c0 c1|op s d rest IH] using string_ind3; intros l; simpl.
  - now intros [= <-].
  - destruct (C.is_nul _); [now intros [= <-]|discriminate].
  - destruct (C.is_nul _); [now intros [= <-]|discriminate].
  - destruct (C.is_nul op); [now intros [= <-]|].
    destruct (select op _ _) as [l1|] eqn:E1; [|discriminate].
    destruct (body rest) as [l2|]; [|discriminate].
    intros [= <-]. apply Forall_app. split; [eapply select_plain; eauto|auto].
Qed.

Lemma plain_encodable l : Forall plain l -> Forall encodable l.
Proof. intros H. eapply Forall_impl; [exact H|]. now intros i [? _]. Qed.

Lemma compile_loop_body : forall code a a',
  compile_loop code a = Ok a' ->
  exists l, body code = Some l /\
            dest a' = dest a + Z.of_nat (length (assemble l)) + 1 /\
            dest a' <= PAGE_SIZE /\
            image a' = image a ++ assemble l ++ [0xc3].
Proof.
  assert (Hret : forall a a', asm_write a [0xc3] = Ok a' ->
            dest a' = dest a + Z.of_nat (length (assemble [])) + 1 /\
            dest a' <= PAGE_SIZE /\ image a' = image a ++ assemble [] ++ [0xc3]).
  { intros a a' H. apply asm_write_spec in H as (Hd & Hi & Hle).
    simpl in *. split; [lia|]. split; [apply Hle; discriminate|assumption]. }
  induction code as [|c0|c0 c1|op s d rest IH] using string_ind3; intros a a'.
  - simpl. eauto.
  - simpl. destruct (C.is_nul _); [eauto|discriminate].
  - cbn [compile_loop body]. destruct (C.is_nul _); [eauto|].
    intros H. apply bind_ok in H as (? & _ & ?). discriminate.
  - cbn [compile_loop body]. destruct (C.is_nul op); [eauto|].
    intros H. apply bind_ok in H as (a1 & H1 & H2).
    rewrite compile_switch_select in H1.
    destruct (select op _ _) as [l1|] eqn:E1; [|discriminate].
    apply IH in H2 as (l2 & -> & Hd & Hle & Hi).
    apply emit_ok in H1 as [Hd1 Hi1];
      [|eapply plain_encodable, select_plain; eauto].
    exists (l1 ++ l2). split; [reflexivity|].
    rewrite assemble_app, length_app, Hi, Hi1, Hd, Hd1, <- !app_assoc.
    split; [lia|]. split; [lia|reflexivity].
Qed.

Lemma compile_body code fn :
  compile code = Ok fn ->
  exists l, body code = Some l /\ Forall plain l /\
            fn = assemble l ++ [0xc3] /\
            Z.of_nat (length fn) <= PAGE_SIZE.
Proof.
  unfold compile. intros H. apply bind_ok in H as (a & H & [= <-]).
  apply compile_loop_body in H as (l & Hb & Hd & Hle & Hi). simpl in *.
  exists l. split; [assumption|]. split; [eapply body_plain; eauto|].
  split; [assumption|]. rewrite Hi, length_app. simpl. lia.
Qed.

Lemma body_compile_loop : forall code l a,
  body code = Some l ->
  dest a + Z.of_nat (length (assemble l)) + 1 <= PAGE_SIZE ->
  compile_loop code a =
    Ok {| dest := dest a + Z.of_nat (length (assemble l)) + 1;
          image := image a ++ assemble l ++ [0xc3] |}.
Proof.
  assert (Hret : forall a, dest a + Z.of_nat (length (assemble [])) + 1 <= PAGE_SIZE ->
            asm_write a [0xc3] =
              Ok {| dest := dest a + Z.of_nat (length (assemble [])) + 1;
                    image := image a ++ assemble [] ++ [0xc3] |}).
  { intros a H. change (assemble []) with (@nil Z) in *. cbn [length app] in *.
    rewrite asm_write_room by (cbn [length]; lia). cbn [map length].
    f_equal. f_equal. lia. }
  induction code as [|c0|c0 c1|op s d rest IH] using string_ind3; intros l a.
  - simpl. intros [= <-]. apply Hret.
  - simpl. destruct (C.is_nul _); [|discriminate]. intros [= <-]. apply Hret.
  - cbn [compile_loop body]. destruct (C.is_nul _); [|discriminate].
    intros [= <-]. apply Hret.
  - cbn [compile_loop body]. destruct (C.is_nul op); [intros [= <-]; apply Hret|].
    rewrite compile_switch_select.
    destruct (select op _ _) as [l1|] eqn:E1; [|discriminate].
    destruct (body rest) as [l2|] eqn:E2; [|discriminate].
    intros [= <-] Hroom. rewrite assemble_app, length_app in *.
    rewrite emit_room; [|eapply plain_encodable, select_plain; eauto|lia].
    cbn [bind]. rewrite (IH l2) by (simpl; try reflexivity; lia).
    simpl. f_equal. f_equal; [lia|]. now rewrite <- !app_assoc.
Qed.

Lemma body_compile code l :
  body code = Some l ->
  Z.of_nat (length (assemble l)) + 1 <= PAGE_SIZE ->
  compile code = Ok (assemble l ++ [0xc3]).
Proof.
  intros Hb Hroom. unfold compile.
  rewrite (body_compile_loop code l) by (simpl; auto). reflexivity.
Qed.

(** * Running assembled code *)

Lemma encode_length i : (1 <= length (encode i))%nat.
Proof. destruct i; simpl; lia. Qed.

Lemma assemble_length l : (length l <= length (assemble l))%nat.
Proof.
  induction l as [|i l IH]; simpl; [lia|].
  unfold assemble in *. simpl. rewrite length_app. pose proof (encode_length i). lia.
Qed.

Lemma run_assemble l : forall fuel rest st,
  Forall plain l -> (length l < fuel)%nat ->
  run fuel (assemble l ++ 0xc3 :: rest) st = exec l st.
Proof.
  induction l as [|i l IH]; intros fuel rest st Hl Hfuel.
  - destruct fuel; [lia|]. reflexivity.
  - destruct fuel; [simpl in Hfuel; lia|].
    apply Forall_cons in Hl as [[Hi Hret] Hl].
    unfold assemble. cbn [flat_map run exec]. rewrite <- app_assoc.
    rewrite decode_encode by assumption.
    destruct i; try congruence;
      (destruct (step _ st); [apply IH; [assumption|simpl in Hfuel; lia]|reflexivity]).
Qed.

Lemma invoke_assemble l registers x :
  Forall plain l ->
  invoke (assemble l ++ [0xc3]) registers x =
    match exec l {| xmms := x; mem := registers |} with
    | Some st => Some (mem st)
    | None => None
    end.
Proof.
  intros Hl. unfold invoke. rewrite run_assemble; [reflexivity|assumption|].
  rewrite length_app. pose proof (assemble_length l). simpl. lia.
Qed.

Lemma disassemble_step fuel code :
  code <> [] ->
  disassemble (S fuel) code =
    match decode code with
    | Some (i, rest) =>
        match disassemble fuel rest with
        | Some l => Some (i :: l)
        | None => None
        end
    | None => None
    end.
Proof. destruct code; [congruence|reflexivity]. Qed.

Lemma disassemble_assemble l : forall fuel,
  Forall plain l -> (length l < fuel)%nat ->
  disassemble fuel (assemble l ++ [0xc3]) = Some (l ++ [RET]).
Proof.
  induction l as [|i l IH]; intros fuel Hl Hfuel.
  - destruct fuel; [lia|]. destruct fuel; reflexivity.
  - destruct fuel; [simpl in Hfuel; lia|].
    apply Forall_cons in Hl as [[Hi Hret] Hl].
    unfold assemble. cbn [flat_map]. rewrite <- app_assoc.
    rewrite disassemble_step by (destruct i; discriminate).
    rewrite decode_encode by assumption.
    fold (assemble l). rewrite IH; [reflexivity|assumption|simpl in Hfuel; lia].
Qed.

Lemma exec_app l1 l2 st :
  exec (l1 ++ l2) st =
    match exec l1 st with Some st' => exec l2 st' | None => None end.
Proof.
  revert st. induction l1 as [|i l1 IH]; intros st; simpl; [reflexivity|].
  destruct (step i st); auto.
Qed.

(** * Memory accesses *)

Section Memory.
Variable m : list complex.
Variable k : nat.
Variable c : complex.
Hypothesis Hk : m !! k = Some c.

Let off : Z := 16 * Z.of_nat k.

Lemma off_div : Z.to_nat (off / 16) = k.
Proof.
  unfold off. replace (16 * Z.of_nat k / 16) with (Z.of_nat k)
    by (Z.div_mod_to_equations; lia). apply Nat2Z.id.
Qed.

Lemma off8_div : Z.to_nat ((off + 8) / 16) = k.
Proof.
  unfold off. replace ((16 * Z.of_nat k + 8) / 16) with (Z.of_nat k)
    by (Z.div_mod_to_equations; lia). apply Nat2Z.id.
Qed.

Lemma load64_r : load64 m off = Some (re c).
Proof.
  unfold load64. rewrite off_div, Hk.
  replace (off mod 8) with 0 by (unfold off; Z.div_mod_to_equations; lia).
  replace (off mod 16) with 0 by (unfold off; Z.div_mod_to_equations; lia).
  replace (0 <=? off) with true by (unfold off; lia). reflexivity.
Qed.

Lemma load64_i : load64 m (off + 8) = Some (im c).
Proof.
  unfold load64. rewrite off8_div, Hk.
  replace ((off + 8) mod 8) with 0 by (unfold off; Z.div_mod_to_equations; lia).
  replace ((off + 8) mod 16) with 8 by (unfold off; Z.div_mod_to_equations; lia).
  replace (0 <=? off + 8) with true by (unfold off; lia). reflexivity.
Qed.

Lemma store64_r v :
  store64 m off v = Some (<[k := {| re := v; im := im c |}]> m).
Proof.
  unfold store64. rewrite off_div, Hk.
  replace (off mod 8) with 0 by (unfold off; Z.div_mod_to_equations; lia).
  replace (off mod 16) with 0 by (unfold off; Z.div_mod_to_equations; lia).
  replace (0 <=? off) with true by (unfold off; lia). reflexivity.
Qed.

Lemma store64_i v :
  store64 m (off + 8) v = Some (<[k := {| re := re c; im := v |}]> m).
Proof.
  unfold store64. rewrite off8_div, Hk.
  replace ((off + 8) mod 8) with 0 by (unfold off; Z.div_mod_to_equations; lia).
  replace ((off + 8) mod 16) with 8 by (unfold off; Z.div_mod_to_equations; lia).
  replace (0 <=? off + 8) with true by (unfold off; lia). reflexivity.
Qed.

Lemma load128_c : load128 m off = Some {| lo := re c; hi := im c |}.
Proof. unfold load128. now rewrite load64_r, load64_i. Qed.

End Memory.

Lemma store128_c m k c v :
  m !! k = Some c ->
  store128 m (16 * Z.of_nat k) v = Some (<[k := {| re := lo v; im := hi v |}]> m).
Proof.
  intros Hk. unfold store128.
  rewrite (load64_r m k c), (load64_i m k c), (store64_r m k c) by assumption.
  rewrite (store64_i _ k {| re := lo v; im := im c |}).
  - simpl. now rewrite list_insert_insert_eq.
  - apply list_lookup_insert_eq. eapply lookup_lt_Some; eauto.
Qed.

Lemma char_a : C.char_of_ascii "a" = 97.
Proof. reflexivity. Qed.

Lemma displacement_index n c :
  n <= 8 -> operand_ok n c = true ->
  displacement c = 16 * reg_index c /\ 0 <= reg_index c < n.
Proof.
  unfold operand_ok, displacement, reg_index. rewrite char_a.
  intros Hn H. apply andb_true_iff in H as [H1 H2].
  apply Z.leb_le in H1. apply Z.ltb_lt in H2. split; [|lia].
  unfold C.to_ulong, sizeof_complex.
  rewrite (Z.mod_small (_ - 97)) by lia.
  rewrite Z.mod_small by lia. apply to_char_small. lia.
Qed.

Lemma upd_same f x v : upd f x v x = v.
Proof. unfold upd. now rewrite Z.eqb_refl. Qed.

Lemma upd_other f x v y : y <> x -> upd f x v y = f y.
Proof. unfold upd. intros H. now destruct (Z.eqb_spec y x). Qed.

Ltac xmm_lookup :=
  repeat first [ rewrite upd_same | rewrite upd_other by discriminate ].

Section Simulation.
Variable registers : list complex.
Variables ks kd : nat.
Variables cs cd : complex.
Hypothesis Hs : registers !! ks = Some cs.
Hypothesis Hd : registers !! kd = Some cd.
Hypothesis Hks : (ks < 8)%nat.
Hypothesis Hkd : (kd < 8)%nat.

Let src_dsp := 16 * Z.of_nat ks.
Let dst_dsp := 16 * Z.of_nat kd.

Lemma exec_assign x :
  exists x',
    exec (assign src_dsp dst_dsp) {| xmms := x; mem := registers |} =
      Some {| xmms := x'; mem := <[kd := cs]> registers |}.
Proof.
  unfold assign, src_dsp, dst_dsp. rewrite !to_char_small by lia.
  cbn [exec step xmms mem].
  rewrite (load128_c _ _ _ Hs). cbn [xmms mem].
  unfold upd at 1. cbn [Z.eqb].
  rewrite (store128_c _ _ _ _ Hd). cbn [lo hi].
  destruct cs. eauto.
Qed.

Lemma exec_add x :
  exists x',
    exec (add src_dsp dst_dsp) {| xmms := x; mem := registers |} =
      Some {| xmms := x'; mem := <[kd := apply_op "+" cs cd]> registers |}.
Proof.
  unfold add, src_dsp, dst_dsp. rewrite !to_char_small by lia.
  cbn [exec step xmms mem].
  rewrite (load128_c _ _ _ Hs). cbn [xmms mem].
  replace (16 * Z.of_nat kd mod 16) with 0 by (Z.div_mod_to_equations; lia).
  cbn [Z.eqb]. rewrite (load128_c _ _ _ Hd). cbn [xmms mem].
  rewrite (store128_c _ _ _ _ Hd). unfold upd. cbn [Z.eqb lo hi].
  rewrite (Double.add_comm (re cs)), (Double.add_comm (im cs)). eauto.
Qed.

Lemma exec_multiply x :
  exists x',
    exec (multiply src_dsp dst_dsp) {| xmms := x; mem := registers |} =
      Some {| xmms := x'; mem := <[kd := apply_op "*" cs cd]> registers |}.
Proof.
  unfold multiply, src_dsp, dst_dsp, offsetof_r, offsetof_i.
  rewrite !Z.add_0_r, !to_char_small by lia.
  cbn [exec step xmms mem].
  rewrite (load64_r _ _ _ Hs). cbn [exec step xmms mem].
  rewrite (load64_i _ _ _ Hs). cbn [exec step xmms mem].
  rewrite (load64_r _ _ _ Hd). cbn [exec step xmms mem].
  rewrite (load64_i _ _ _ Hd). cbn [exec step xmms mem].
  xmm_lookup. cbn [lo hi].
  rewrite (store64_r _ _ _ Hd). cbn [exec step xmms mem].
  xmm_lookup. cbn [lo hi].
  erewrite store64_i
    by (apply list_lookup_insert_eq; eapply lookup_lt_Some; eauto).
  cbn [exec step xmms mem re im].
  rewrite list_insert_insert_eq.
  eexists. apply f_equal. apply (f_equal2 Machine); [reflexivity|].
  unfold apply_op. cbn [Ascii.eqb Bool.eqb].
  now rewrite (Double.mul_comm (re cs)), (Double.mul_comm (im cs) (im cd)).
Qed.
Lemma exec_select op l x :
  select op src_dsp dst_dsp = Some l ->
  exists x',
    exec l {| xmms := x; mem := registers |} =
      Some {| xmms := x'; mem := <[kd := apply_op op cs cd]> registers |}.
Proof.
  unfold select, apply_op.
  destruct (Ascii.eqb op "=") eqn:E1; [intros [= <-]; apply exec_assign|].
  destruct (Ascii.eqb op "+") eqn:E2; [intros [= <-]; apply exec_add|].
  destruct (Ascii.eqb op "*") eqn:E3; [intros [= <-]; apply exec_multiply|].
  discriminate.
Qed.

End Simulation.

Lemma get_ok registers k c :
  registers !! k = Some c -> get registers (Z.of_nat k) = Ok c.
Proof.
  intros H. unfold get, element. pose proof (lookup_lt_Some _ _ _ H).
  replace ((0 <=? Z.of_nat k) && (Z.of_nat k <? Z.of_nat (length registers)))
    with true by lia.
  cbn [bind]. now rewrite Nat2Z.id, H.
Qed.

Lemma set_r_ok registers k c v :
  registers !! k = Some c ->
  set_r registers (Z.of_nat k) v = Ok (<[k := {| re := v; im := im c |}]> registers).
Proof. intros H. unfold set_r. rewrite (get_ok _ _ _ H). cbn [bind]. now rewrite Nat2Z.id. Qed.

Lemma set_i_ok registers k c v :
  registers !! k = Some c ->
  set_i registers (Z.of_nat k) v = Ok (<[k := {| re := re c; im := v |}]> registers).
Proof. intros H. unfold set_i. rewrite (get_ok _ _ _ H). cbn [bind]. now rewrite Nat2Z.id. Qed.

Lemma interpret_switch_ok code op registers ks kd cs cd :
  registers !! ks = Some cs -> registers !! kd = Some cd ->
  known op = true ->
  interpret_switch code op (Z.of_nat kd) (Z.of_nat ks) registers =
    Ok (<[kd := apply_op op cs cd]> registers).
Proof.
  intros Hs Hd Hop. unfold interpret_switch, apply_op, known in *.
  pose proof (lookup_lt_Some _ _ _ Hd) as Hlt.
  assert (Hd1 : forall v, (<[kd := v]> registers) !! kd = Some v)
    by (intros v; now apply list_lookup_insert_eq).
  assert (Hs1 : forall v, exists c, (<[kd := v]> registers) !! ks = Some c /\
                 (ks = kd /\ c = v /\ cs = cd \/ ks <> kd /\ c = cs)).
  { intros v. destruct (decide (ks = kd)) as [->|Hne].
    - exists v. split; [apply Hd1|left]. split; [reflexivity|]. split; congruence.
    - exists cs. rewrite list_lookup_insert_ne by congruence. auto. }
  destruct (Ascii.eqb op "=").
  { rewrite (get_ok _ _ _ Hs). cbn [bind].
    rewrite (set_r_ok _ _ _ _ Hd). cbn [bind].
    destruct (Hs1 {| re := re cs; im := im cd |}) as (c & Hc & Hcase).
    rewrite (get_ok _ _ _ Hc). cbn [bind].
    rewrite (set_i_ok _ _ _ _ (Hd1 _)). rewrite list_insert_insert_eq. cbn [re im].
    do 2 f_equal. destruct Hcase as [(_ & -> & <-)|(_ & ->)]; now destruct cs. }
  destruct (Ascii.eqb op "+").
  { rewrite (get_ok _ _ _ Hd), (get_ok _ _ _ Hs). cbn [bind].
    rewrite (set_r_ok _ _ _ _ Hd). cbn [bind].
    rewrite (get_ok _ _ _ (Hd1 _)). cbn [bind].
    destruct (Hs1 {| re := (re cd + re cs)%float; im := im cd |}) as (c & Hc & Hcase).
    rewrite (get_ok _ _ _ Hc). cbn [bind].
    rewrite (set_i_ok _ _ _ _ (Hd1 _)). rewrite list_insert_insert_eq. cbn [re im].
    do 3 f_equal. destruct Hcase as [(_ & -> & <-)|(_ & ->)]; reflexivity. }
  destruct (Ascii.eqb op "*"); [|discriminate].
  rewrite (get_ok _ _ _ Hd), (get_ok _ _ _ Hs). cbn [bind].
  rewrite (set_r_ok _ _ _ _ Hd). cbn [bind].
  rewrite (set_i_ok _ _ _ _ (Hd1 _)). now rewrite list_insert_insert_eq.
Qed.

Lemma select_known op s d l : select op s d = Some l -> known op = true.
Proof.
  unfold select, known.
  destruct (Ascii.eqb op "="), (Ascii.eqb op "+"), (Ascii.eqb op "*");
    simpl; congruence.
Qed.

Lemma known_not_nul op : known op = true -> C.is_nul op = false.
Proof.
  unfold known. intros H.
  destruct (Ascii.eqb op "=") eqn:E1; [apply Ascii.eqb_eq in E1; now subst|].
  destruct (Ascii.eqb op "+") eqn:E2; [apply Ascii.eqb_eq in E2; now subst|].
  destruct (Ascii.eqb op "*") eqn:E3; [apply Ascii.eqb_eq in E3; now subst|].
  discriminate.
Qed.

Lemma operand_lookup (registers : list complex) c :
  Z.of_nat (length registers) <= 8 ->
  operand_ok (Z.of_nat (length registers)) c = true ->
  exists k v, registers !! k = Some v /\ (k < 8)%nat /\
              reg_index c = Z.of_nat k /\ displacement c = 16 * Z.of_nat k.
Proof.
  intros Hn Hc. destruct (displacement_index _ _ Hn Hc) as [Hd Hr].
  destruct (lookup_lt_is_Some_2 registers (Z.to_nat (reg_index c))) as [v Hv]; [lia|].
  exists (Z.to_nat (reg_index c)), v. rewrite Z2Nat.id by lia.
  split; [assumption|]. split; [lia|]. split; [reflexivity|assumption].
Qed.

Lemma body_sound : forall code l registers x,
  body code = Some l ->
  Z.of_nat (length registers) <= 8 ->
  operands_ok (Z.of_nat (length registers)) code = true ->
  exists x' registers',
    exec l {| xmms := x; mem := registers |} =
      Some {| xmms := x'; mem := registers' |} /\
    interpret registers code = Ok registers' /\
    length registers' = length registers.
Proof.
  induction code as [|c0|c0 c1|op s d rest IH] using string_ind3;
    intros l registers x.
  - intros [= <-] _ _. simpl. eauto.
  - simpl. destruct (C.is_nul c0); [|discriminate]. intros [= <-] _ _. simpl. eauto.
  - cbn [body interpret]. destruct (C.is_nul c0); [|discriminate].
    intros [= <-] _ _. simpl. eauto.
  - cbn [body interpret operands_ok].
    destruct (C.is_nul op); [intros [= <-] _ _; simpl; eauto|].
    destruct (select op _ _) as [l1|] eqn:E1; [|discriminate].
    destruct (body rest) as [l2|] eqn:E2; [|discriminate].
    intros [= <-] Hn Hok. cbn [orb] in Hok.
    apply andb_true_iff in Hok as [Hok Hrest].
    apply andb_true_iff in Hok as [Hs Hd].
    destruct (operand_lookup _ _ Hn Hs) as (ks & cs & Hks & Hks8 & Ris & Dis).
    destruct (operand_lookup _ _ Hn Hd) as (kd & cd & Hkd & Hkd8 & Rid & Did).
    rewrite Dis, Did in E1.
    destruct (exec_select registers ks kd cs cd Hks Hkd Hks8 Hkd8 op l1 x E1)
      as (x1 & Hx1).
    rewrite Ris, Rid.
    rewrite (interpret_switch_ok _ op _ _ _ _ _ Hks Hkd (select_known _ _ _ _ E1)).
    cbn [bind]. rewrite exec_app, Hx1.
    destruct (IH l2 (<[kd := apply_op op cs cd]> registers) x1 eq_refl)
      as (x' & registers' & Hexec & Hint & Hlen);
      rewrite ?length_insert; try assumption.
    exists x', registers'. rewrite length_insert in Hlen. auto.
Qed.

Lemma select_size op s d :
  known op = true ->
  exists l, select op s d = Some l /\ Z.of_nat (length (assemble l)) = emitted op.
Proof.
  unfold known, select, emitted.
  destruct (Ascii.eqb op "="); [intros _; eexists; split; reflexivity|].
  destruct (Ascii.eqb op "+"); [intros _; eexists; split; reflexivity|].
  destruct (Ascii.eqb op "*"); [intros _; eexists; split; reflexivity|discriminate].
Qed.

Lemma body_text p : Forall known_insn p ->
  exists l, body (text p EmptyString) = Some l /\
            Z.of_nat (length (assemble l)) = size p.
Proof.
  induction 1 as [|[[op s] d] p Hop _ (l2 & Hl2 & Hs2)]; [exists []; auto|].
  cbn [text body size]. unfold known_insn in Hop. cbn [fst] in Hop.
  rewrite (known_not_nul _ Hop).
  destruct (select_size op (displacement s) (displacement d) Hop) as (l1 & -> & Hs1).
  rewrite Hl2. exists (l1 ++ l2). split; [reflexivity|].
  rewrite assemble_app, length_app. lia.
Qed.

Lemma compile_loop_text p : forall tail a,
  Forall known_insn p ->
  dest a + size p <= PAGE_SIZE ->
  exists a', dest a' = dest a + size p /\
             compile_loop (text p tail) a = compile_loop tail a'.
Proof.
  induction p as [|[[op s] d] p IH]; intros tail a Hp Hroom.
  - exists a. simpl. split; [lia|reflexivity].
  - apply Forall_cons in Hp as [Hop Hp]. unfold known_insn in Hop. cbn [fst] in Hop.
    cbn [text size] in *.
    destruct (select_size op (displacement s) (displacement d) Hop) as (l1 & Hl1 & Hs1).
    assert (Hnn : 0 <= size p).
    { clear. induction p as [|[[o ?] ?] p IHp]; simpl; [lia|].
      unfold emitted. destruct (Ascii.eqb o "="), (Ascii.eqb o "+"), (Ascii.eqb o "*"); lia. }
    assert (E : compile_loop (String op (String s (String d (text p tail)))) a =
                let* a1 := compile_switch (String op (String s (String d (text p tail))))
                             op (displacement s) (displacement d) a in
                compile_loop (text p tail) a1).
    { cbn [compile_loop]. rewrite (known_not_nul _ Hop). reflexivity. }
    rewrite E, compile_switch_select, Hl1.
    rewrite emit_room; [|eapply plain_encodable, select_plain; eauto|lia].
    cbn [bind].
    destruct (IH tail {| dest := dest a + Z.of_nat (length (assemble l1));
                         image := image a ++ assemble l1 |} Hp)
      as (a' & Hd & Heq); [simpl; lia|].
    exists a'. simpl in Hd. split; [lia|assumption].
Qed.

(** * Single instructions and layout *)

Lemma index_displacement c k :
  reg_index c = Z.of_nat k -> (k < 8)%nat -> displacement c = 16 * Z.of_nat k.
Proof.
  intros Hc Hk. destruct (displacement_index 8 c) as [H _]; [lia| |congruence].
  unfold operand_ok. rewrite Hc. lia.
Qed.

Lemma select_inside n ks kd op l :
  0 <= Z.of_nat ks < n -> 0 <= Z.of_nat kd < n -> n <= 8 ->
  select op (16 * Z.of_nat ks) (16 * Z.of_nat kd) = Some l ->
  Forall (inside n) l.
Proof.
  intros Hs Hd Hn. unfold select, assign, add, multiply, offsetof_r, offsetof_i.
  rewrite !Z.add_0_r, !to_char_small by lia.
  destruct (Ascii.eqb op "=");
    [|destruct (Ascii.eqb op "+"); [|destruct (Ascii.eqb op "*"); [|discriminate]]];
    intros [= <-]; repeat constructor; unfold sizeof_complex; lia.
Qed.

Lemma body_inside n : forall code l,
  body code = Some l -> 0 <= n <= 8 -> operands_ok n code = true ->
  Forall (inside n) l.
Proof.
  induction code as [|c0|c0 c1|op s d rest IH] using string_ind3; intros l.
  - intros [= <-] _ _. constructor.
  - simpl. destruct (C.is_nul c0); [|discriminate]. intros [= <-] _ _. constructor.
  - cbn [body]. destruct (C.is_nul c0); [|discriminate]. intros [= <-] _ _. constructor.
  - cbn [body operands_ok].
    destruct (C.is_nul op); [intros [= <-] _ _; constructor|].
    destruct (select op _ _) as [l1|] eqn:E1; [|discriminate].
    destruct (body rest) as [l2|] eqn:E2; [|discriminate].
    intros [= <-] Hn Hok. cbn [orb] in Hok.
    apply andb_true_iff in Hok as [Hok Hrest].
    apply andb_true_iff in Hok as [Hs Hd].
    destruct (displacement_index n s) as [Ds Rs]; [lia|assumption|].
    destruct (displacement_index n d) as [Dd Rd]; [lia|assumption|].
    apply Forall_app. split; [|now apply IH].
    rewrite Ds, Dd in E1.
    rewrite <- (Z2Nat.id (reg_index s)), <- (Z2Nat.id (reg_index d)) in E1 by lia.
    eapply select_inside; [| | |exact E1]; lia.
Qed.

Section Single.
Variables (op s d : ascii) (registers : list complex).
Variables (ks kd : nat) (cs cd : complex).
Hypothesis Hop : known op = true.
Hypothesis Hs : reg_index s = Z.of_nat ks.
Hypothesis Hd : reg_index d = Z.of_nat kd.
Hypothesis Hcs : registers !! ks = Some cs.
Hypothesis Hcd : registers !! kd = Some cd.
Hypothesis Hlen : (length registers <= 8)%nat.

Let code := String op (String s (String d EmptyString)).

Lemma single_listing :
  exists l, select op (16 * Z.of_nat ks) (16 * Z.of_nat kd) = Some l /\
            compile code = Ok (assemble l ++ [0xc3]) /\ Forall plain l.
Proof.
  pose proof (lookup_lt_Some _ _ _ Hcs). pose proof (lookup_lt_Some _ _ _ Hcd).
  destruct (select_size op (16 * Z.of_nat ks) (16 * Z.of_nat kd) Hop) as (l & Hl & Hsz).
  exists l. split; [assumption|]. split; [|eapply select_plain; eauto].
  replace l with (l ++ []) at 1 by apply app_nil_r.
  apply body_compile.
  - unfold code. cbn [body]. rewrite (known_not_nul _ Hop).
    rewrite (index_displacement s ks), (index_displacement d kd), Hl by (assumption || lia).
    reflexivity.
  - rewrite app_nil_r, Hsz. unfold emitted, PAGE_SIZE.
    destruct (Ascii.eqb op "="), (Ascii.eqb op "+"), (Ascii.eqb op "*"); lia.
Qed.

Lemma single_invoke l x :
  select op (16 * Z.of_nat ks) (16 * Z.of_nat kd) = Some l ->
  invoke (assemble l ++ [0xc3]) registers x =
    Some (<[kd := apply_op op cs cd]> registers).
Proof.
  intros Hl. pose proof (lookup_lt_Some _ _ _ Hcs). pose proof (lookup_lt_Some _ _ _ Hcd).
  rewrite invoke_assemble by (eapply select_plain; eauto).
  destruct (exec_select registers ks kd cs cd Hcs Hcd ltac:(lia) ltac:(lia) op l x Hl)
    as (x' & ->). reflexivity.
Qed.

Lemma single_interpret :
  interpret registers code = Ok (<[kd := apply_op op cs cd]> registers).
Proof.
  unfold code. cbn [interpret]. rewrite (known_not_nul _ Hop), Hs, Hd.
  now rewrite (interpret_switch_ok _ op _ _ _ _ _ Hcs Hcd Hop).
Qed.
End Single.

Lemma emit_one a i :
  plain i -> dest a + Z.of_nat (length (encode i)) <= PAGE_SIZE ->
  emit a [i] = stored a (encode i).
Proof.
  intros [Hi _] Hroom. unfold stored.
  rewrite emit_room; unfold assemble; simpl flat_map; rewrite ?app_nil_r;
    [reflexivity|now repeat constructor|assumption].
Qed.

Lemma multiply_resolved ks kd :
  (ks < 8)%nat -> (kd < 8)%nat ->
  let src := 16 * Z.of_nat ks in
  let dst := 16 * Z.of_nat kd in
  multiply src dst =
    [MOVSD_load 0 src; MOVSD_load 1 (src + 8);
     MOVSD_load 2 dst; MOVSD_load 3 (dst + 8);
     MOVSD_rr 4 0; MULSD 4 2; MOVSD_rr 5 1; MULSD 5 3; SUBSD 4 5;
     MOVSD_store dst 4;
     MULSD 3 0; MULSD 2 1; ADDSD 2 3;
     MOVSD_store (dst + 8) 2].
Proof.
  intros Hs Hd src dst. unfold multiply, offsetof_r, offsetof_i, src, dst.
  rewrite !Z.add_0_r, !to_char_small by lia. reflexivity.
Qed.

Lemma invoke_assign_pure registers x x' :
  invoke (assemble (assign 0 16) ++ [0xc3]) registers x =
  invoke (assemble (assign 0 16) ++ [0xc3]) registers x'.
Proof.
  assert (Hp : Forall plain (assign 0 16))
    by (apply (select_plain "=" 0 16); reflexivity).
  rewrite !invoke_assemble by exact Hp.
  unfold assign. rewrite !to_char_small by lia.
  cbn [exec step xmms mem].
  destruct (load128 registers 0) as [v|]; [|reflexivity].
  cbn [xmms mem]. unfold upd. cbn [Z.eqb].
  destruct (store128 registers 16 v); reflexivity.
Qed.

Lemma body_text_tail p tail :
  Forall known_insn p ->
  exists lp,
    body (text p EmptyString) = Some lp /\
    body (text p tail) =
      match body tail with Some lt => Some (lp ++ lt) | None => None end.
Proof.
  induction 1 as [|[[op s] d] p Hop _ (lp & Hlp & Htl)].
  - exists []. split; [reflexivity|]. simpl. now destruct (body tail).
  - unfold known_insn in Hop. cbn [fst] in Hop. cbn [text body].
    rewrite (known_not_nul _ Hop), Hlp, Htl.
    destruct (select_size op (displacement s) (displacement d) Hop) as (l1 & -> & _).
    exists (l1 ++ lp). split; [reflexivity|].
    destruct (body tail); [now rewrite app_assoc|reflexivity].
Qed.

(** * The claims *)

(** C1, counterexample.  [compile] accepts ["=bq"]: the displacement of
    register [q], 16 * 16 = 256, is narrowed to 0, so the routine copies
    [b] over [a], while [interpret] on the same four registers accesses
    [registers[16]], outside the register file. *)
Lemma accepted_program_beyond_register_file :
  let registers := [Complex 1 2; Complex 3 4; Complex 0 0; Complex 0 0] in
  compile "=bq"%string = Ok [102; 15; 16; 71; 16; 102; 15; 17; 71; 0; 195] /\
  invoke [102; 15; 16; 71; 16; 102; 15; 17; 71; 0; 195] registers idle =
    Some [Complex 3 4; Complex 3 4; Complex 0 0; Complex 0 0] /\
  interpret registers "=bq"%string = Undefined OutOfBounds.
Proof. repeat split; reflexivity. Qed.

(** C1, as amended.  For every program [compile] accepts whose operand
    letters all name registers of the file, and every register file of at
    most 8 complex values (4 in the reference use), calling the compiled
    routine returns and leaves exactly the register file that [interpret]
    computes, whatever the vector registers hold at the call and for all
    double values: zeros of both signs, subnormals, infinities and NaN.
    Equality of primitive floats is equality of bit patterns except that NaN
    payloads are not distinguished. *)
Theorem compiled_routine_agrees_with_interpret code fn registers x :
  compile code = Ok fn ->
  Z.of_nat (length registers) <= 8 ->
  operands_ok (Z.of_nat (length registers)) code = true ->
  exists registers',
    invoke fn registers x = Some registers' /\
    interpret registers code = Ok registers'.
Proof.
  intros Hc Hn Hok.
  apply compile_body in Hc as (l & Hb & Hl & -> & _).
  destruct (body_sound code l registers x Hb Hn Hok) as (x' & r' & He & Hi & _).
  exists r'. rewrite invoke_assemble, He by assumption. auto.
Qed.

(** C1, witness: a four-instruction program on four registers holding a
    negative number, a negative zero, a subnormal and values that overflow. *)
Lemma compiled_routine_agrees_with_interpret_witness :
  let code := "*bb+ab=bc*cd"%string in
  let fn := match compile code with Ok f => f | _ => [] end in
  let registers := [Complex (-0.75) 0.125; Complex (-0) 0x1p-1074;
                    Complex 3 4; Complex 0x1p1000 (-0x1p1000)] in
  compile code = Ok fn /\
  Z.of_nat (length registers) <= 8 /\
  operands_ok (Z.of_nat (length registers)) code = true /\
  exists registers',
    invoke fn registers idle = Some registers' /\
    interpret registers code = Ok registers'.
Proof.
  intros code fn registers.
  assert (H1 : compile code = Ok fn) by reflexivity.
  assert (H2 : Z.of_nat (length registers) <= 8) by (simpl; lia).
  assert (H3 : operands_ok (Z.of_nat (length registers)) code = true) by reflexivity.
  split; [assumption|]. split; [assumption|]. split; [assumption|].
  exact (compiled_routine_agrees_with_interpret code fn registers idle H1 H2 H3).
Defined.

(** C2, counterexample.  Register [z] is not one of the four registers, yet
    compiling ["=az"] returns a routine. *)
Lemma compile_accepts_register_z :
  compile "=az"%string = Ok [102; 15; 16; 71; 0; 102; 15; 17; 71; 144; 195] /\
  operands_ok 4 "=az"%string = false.
Proof. split; reflexivity. Qed.

(** C2, as amended.  [compile] does not examine register operands: every
    program made of ['='], ['+'] and ['*'] instructions whose code fits the
    page compiles, whatever its operand bytes are.  In particular ["=az"]
    compiles to [movupd 0(%rdi),%xmm0; movupd %xmm0,-112(%rdi); ret]. *)
Theorem compile_accepts_any_operand :
  (forall p : list insn,
      Forall known_insn p -> size p + 1 <= PAGE_SIZE ->
      exists fn, compile (text p EmptyString) = Ok fn) /\
  compile "=az"%string =
    Ok (assemble [MOVUPD_load 0 0; MOVUPD_store (-112) 0] ++ [0xc3]).
Proof.
  split; [|reflexivity].
  intros p Hp Hroom. destruct (body_text p Hp) as (l & Hl & Hsz).
  exists (assemble l ++ [0xc3]). apply body_compile; [assumption|lia].
Qed.

(** C2, witness: operands far outside ['a'..'d']. *)
Lemma compile_accepts_any_operand_witness :
  let p : list insn := [("=", "a", "z"); ("*", "{", "!"); ("+", "A", "~")]%char in
  Forall known_insn p /\ size p + 1 <= PAGE_SIZE /\
  exists fn, compile (text p EmptyString) = Ok fn.
Proof.
  intros p.
  assert (H1 : Forall known_insn p) by (repeat constructor).
  assert (H2 : size p + 1 <= PAGE_SIZE) by (vm_compute; discriminate).
  split; [assumption|]. split; [assumption|].
  exact (proj1 compile_accepts_any_operand p H1 H2).
Defined.

(** C3, counterexample.  An emitter given displacement 300 stores the byte
    44 = 300 mod 256 and reports nothing; and ["=ai"], which needs the ninth
    register, compiles. *)
Lemma displacement_not_rejected :
  movpd_memory_reg {| dest := 0; image := [] |} 300 (xmm 0) =
    Ok {| dest := 5; image := [102; 15; 16; 71; 44] |} /\
  compile "=ai"%string = Ok [102; 15; 16; 71; 0; 102; 15; 17; 71; 128; 195].
Proof. split; reflexivity. Qed.

(** C3, as amended.  No emitter rejects a displacement: each of the five
    emitters with a memory operand stores the displacement reduced modulo
    256, whatever its value.  For register letters with index below [n <= 8]
    the displacement computed by [compile] is 16 times the index, the field
    offsets added to it stay within [0, 120], and narrowing to [char] changes
    nothing.  For the ninth register compilation succeeds and the
    displacement byte is 0x80, that is -128. *)
Theorem displacement_narrowed_to_signed_byte :
  (forall a disp reg,
      reg_ok reg -> dest a + 5 <= PAGE_SIZE ->
      movpd_memory_reg a disp reg =
        stored a [0x66; 0x0f; 0x10; 0x47 + 8 * reg; disp mod 256] /\
      movpd_reg_memory a reg disp =
        stored a [0x66; 0x0f; 0x11; 0x47 + 8 * reg; disp mod 256] /\
      addpd_memory_reg a disp reg =
        stored a [0x66; 0x0f; 0x58; 0x47 + 8 * reg; disp mod 256] /\
      movsd_memory_reg a disp reg =
        stored a [0xf2; 0x0f; 0x10; 0x47 + 8 * reg; disp mod 256] /\
      movsd_reg_memory a reg disp =
        stored a [0xf2; 0x0f; 0x11; 0x47 + 8 * reg; disp mod 256]) /\
  (forall n c,
      n <= 8 -> operand_ok n c = true ->
      displacement c = sizeof_complex * reg_index c /\
      0 <= displacement c + offsetof_r /\
      displacement c + offsetof_i <= 120 /\
      C.to_char (displacement c + offsetof_r) = displacement c + offsetof_r /\
      C.to_char (displacement c + offsetof_i) = displacement c + offsetof_i) /\
  compile "=ai"%string =
    Ok (assemble [MOVUPD_load 0 0; MOVUPD_store (-128) 0] ++ [0xc3]).
Proof.
  split; [|split; [|reflexivity]].
  - intros a disp reg Hreg Hroom.
    assert (Hd : disp_ok (C.to_char disp)) by apply to_char_range.
    assert (Hb : C.to_char disp mod 256 = disp mod 256)
      by (rewrite <- byte_of_to_char, to_char_idem; apply byte_of_to_char).
    rewrite movpd_memory_reg_emit, movpd_reg_memory_emit, addpd_memory_reg_emit,
      movsd_memory_reg_emit, movsd_reg_memory_emit by assumption.
    rewrite !emit_one by (try (split; [split; assumption|discriminate]); simpl; lia).
    cbn [encode]. rewrite Hb. repeat split; reflexivity.
  - intros n c Hn Hc. destruct (displacement_index n c Hn Hc) as [-> Hr].
    unfold sizeof_complex, offsetof_r, offsetof_i.
    rewrite !to_char_small by lia. lia.
Qed.

(** C3, witness: displacement 1000 through [movsd_memory_reg], and the
    eighth register [h]. *)
Lemma displacement_narrowed_to_signed_byte_witness :
  (reg_ok 3 /\ dest {| dest := 4000; image := [] |} + 5 <= PAGE_SIZE /\
   movsd_memory_reg {| dest := 4000; image := [] |} 1000 3 =
     stored {| dest := 4000; image := [] |} [0xf2; 0x0f; 0x10; 0x5f; 0xe8]) /\
  (8 <= 8 /\ operand_ok 8 "h" = true /\ displacement "h" = 112).
Proof.
  assert (H1 : reg_ok 3) by (unfold reg_ok; lia).
  assert (H2 : dest {| dest := 4000; image := [] |} + 5 <= PAGE_SIZE)
    by (vm_compute; discriminate).
  assert (H3 : 8 <= 8) by lia.
  assert (H4 : operand_ok 8 "h" = true) by reflexivity.
  split.
  - split; [assumption|]. split; [assumption|].
    exact (proj1 (proj2 (proj2 (proj2
             (proj1 displacement_narrowed_to_signed_byte {| dest := 4000; image := [] |} 1000 3 H1 H2))))).
  - split; [assumption|]. split; [assumption|].
    exact (proj1 (proj1 (proj2 displacement_narrowed_to_signed_byte) 8 "h"%char H3 H4)).
Defined.

(** C4, counterexample.  The offending byte is at position 0 in the first
    program and at position 3 in the second; the outcome, an exit with the
    same message, is the same, so it does not carry the position. *)
Lemma unknown_opcode_report_lacks_position :
  compile "?ab"%string =
    Exit 1 ("undefined instruction ?ab (ASCII 3f)" ++ String (ascii_of_nat 10) EmptyString) /\
  compile "=ab?ab"%string =
    Exit 1 ("undefined instruction ?ab (ASCII 3f)" ++ String (ascii_of_nat 10) EmptyString).
Proof. split; reflexivity. Qed.

(** C4, as amended.  When the instructions before it are known and their
    code fits the page, an instruction whose operation byte is neither NUL
    nor one of ['='], ['+'], ['*'] makes [compile] terminate the process with
    exit status 1 after writing
    ["undefined instruction <text from that instruction on> (ASCII <hex>)"]
    to [stderr].  Nothing is returned to the caller, so no routine exists;
    the message holds the remaining text and the byte, not a position. *)
Theorem unknown_opcode_exits p op s d rest :
  Forall known_insn p -> size p <= PAGE_SIZE ->
  known op = false -> C.is_nul op = false ->
  let bad := String op (String s (String d rest)) in
  compile (text p bad) = Exit 1 (undefined_instruction bad).
Proof.
  intros Hp Hroom Hop Hnul bad. unfold compile.
  destruct (compile_loop_text p bad {| dest := 0; image := [] |} Hp)
    as (a' & _ & ->); [simpl; lia|].
  unfold bad at 1. cbn [compile_loop]. rewrite Hnul, compile_switch_select.
  replace (select op _ _) with (@None (list instr)); [reflexivity|].
  unfold known in Hop. unfold select.
  destruct (Ascii.eqb op "="), (Ascii.eqb op "+"), (Ascii.eqb op "*");
    simpl in Hop; congruence.
Qed.

(** C4, witness: an unknown operation after two known instructions. *)
Lemma unknown_opcode_exits_witness :
  let p : list insn := [("*", "a", "b"); ("+", "b", "c")]%char in
  Forall known_insn p /\ size p <= PAGE_SIZE /\
  known "-" = false /\ C.is_nul "-" = false /\
  compile "*ab+bc-cd=da"%string =
    Exit 1 ("undefined instruction -cd=da (ASCII 2d)"
              ++ String (ascii_of_nat 10) EmptyString).
Proof.
  intros p.
  assert (H1 : Forall known_insn p) by (repeat constructor).
  assert (H2 : size p <= PAGE_SIZE) by (vm_compute; discriminate).
  assert (H3 : known "-" = false) by reflexivity.
  assert (H4 : C.is_nul "-" = false) by reflexivity.
  split; [assumption|]. split; [assumption|].
  split; [assumption|]. split; [assumption|].
  exact (unknown_opcode_exits p "-"%char "c"%char "d"%char "=da"%string H1 H2 H3 H4).
Defined.

(** C5, counterexample.  [compile] accepts ["*ai"]; with nine registers both
    operands name registers of the file and [interpret] stores the product
    (11, 10) in [i], but the displacement of [i], 128, is narrowed to -128
    and the emitted code addresses memory below the file.  [compile] also
    accepts ["*bq"]: the displacement of [q] is narrowed to 0, so on four
    registers the emitted code multiplies into [a]. *)
Lemma multiply_operand_beyond_displacement_range :
  let nine := [Complex 2 3; origin; origin; origin; origin; origin; origin;
               origin; Complex 4 (-1)] in
  let four := [Complex 2 3; Complex 4 (-1); origin; origin] in
  exists fn fn',
    compile "*ai" = Ok fn /\
    operands_ok 9 "*ai" = true /\
    interpret nine "*ai" = Ok (<[8%nat := Complex 11 10]> nine) /\
    invoke fn nine idle = None /\
    compile "*bq" = Ok fn' /\
    invoke fn' four idle = Some [Complex 11 10; Complex 4 (-1); origin; origin] /\
    interpret four "*bq" = Undefined OutOfBounds.
Proof.
  intros nine four. eexists. eexists.
  split; [vm_compute; reflexivity|]. split; [reflexivity|].
  split; [vm_compute; reflexivity|]. split; [vm_compute; reflexivity|].
  split; [vm_compute; reflexivity|]. split; [vm_compute; reflexivity|].
  vm_compute; reflexivity.
Qed.

(** C5, as amended.  In every program [compile] accepts, a multiply
    instruction whose operands name registers of a file of at most 8
    registers is compiled to the fourteen instructions below, which follow
    the code of the instructions before it: the four operands are loaded into
    [%xmm0]..[%xmm3] first, the cross products are formed in [%xmm4] and
    [%xmm5], and the two stores come after all loads.  Executed on the
    register file, whatever the vector registers hold, they leave
    new_real = dst.r * src.r - dst.i * src.i and
    new_imag = dst.r * src.i + dst.i * src.r in the destination and change
    nothing else; so does the routine compiled from the single instruction.
    In particular ["*ab"] called with a = (2, 3), b = (4, -1) yields
    b = (11, 10). *)
Theorem multiply_computes_complex_product :
  (forall p s d rest fn registers ks kd cs cd x,
      Forall known_insn p ->
      compile (text p (String "*" (String s (String d rest)))) = Ok fn ->
      reg_index s = Z.of_nat ks -> reg_index d = Z.of_nat kd ->
      registers !! ks = Some cs -> registers !! kd = Some cd ->
      (length registers <= 8)%nat ->
      let src := 16 * Z.of_nat ks in
      let dst := 16 * Z.of_nat kd in
      let listing :=
        [MOVSD_load 0 src; MOVSD_load 1 (src + 8);
         MOVSD_load 2 dst; MOVSD_load 3 (dst + 8);
         MOVSD_rr 4 0; MULSD 4 2; MOVSD_rr 5 1; MULSD 5 3; SUBSD 4 5;
         MOVSD_store dst 4;
         MULSD 3 0; MULSD 2 1; ADDSD 2 3;
         MOVSD_store (dst + 8) 2] in
      (exists before after,
          body (text p EmptyString) = Some before /\
          disassemble (length fn) fn =
            Some (before ++ listing ++ after ++ [RET])) /\
      exists x',
        exec listing {| xmms := x; mem := registers |} =
          Some {| xmms := x';
                  mem := <[kd := {| re := (re cd * re cs - im cd * im cs)%float;
                                    im := (re cd * im cs + im cd * re cs)%float |}]>
                           registers |}) /\
  (forall s d registers ks kd cs cd x,
      reg_index s = Z.of_nat ks -> reg_index d = Z.of_nat kd ->
      registers !! ks = Some cs -> registers !! kd = Some cd ->
      (length registers <= 8)%nat ->
      exists fn,
        compile (String "*" (String s (String d EmptyString))) = Ok fn /\
        invoke fn registers x =
          Some (<[kd := {| re := (re cd * re cs - im cd * im cs)%float;
                           im := (re cd * im cs + im cd * re cs)%float |}]>
                  registers)) /\
  (forall c d x,
      exists fn,
        compile "*ab" = Ok fn /\
        invoke fn [Complex 2 3; Complex 4 (-1); c; d] x =
          Some [Complex 2 3; Complex 11 10; c; d]).
Proof.
  split; [|split].
  - intros p s d rest fn registers ks kd cs cd x Hp Hc Hs Hd Hcs Hcd Hlen
      src dst listing.
    pose proof (lookup_lt_Some _ _ _ Hcs). pose proof (lookup_lt_Some _ _ _ Hcd).
    assert (Hks : (ks < 8)%nat) by lia. assert (Hkd : (kd < 8)%nat) by lia.
    assert (El : multiply src dst = listing) by (apply multiply_resolved; assumption).
    split.
    + apply compile_body in Hc as (l & Hb & Hl & -> & _).
      destruct (body_text_tail p (String "*" (String s (String d rest))) Hp)
        as (before & Hbefore & Htail).
      rewrite Htail in Hb. cbn [body] in Hb.
      change (C.is_nul "*") with false in Hb. cbv iota in Hb.
      rewrite (index_displacement s ks), (index_displacement d kd) in Hb
        by assumption.
      change (select "*" (16 * Z.of_nat ks) (16 * Z.of_nat kd))
        with (Some (multiply src dst)) in Hb.
      rewrite El in Hb.
      destruct (body rest) as [after|]; [|discriminate].
      assert (Hwhole : l = before ++ listing ++ after) by congruence.
      clear Hb. subst l.
      exists before, after. split; [assumption|].
      assert (Hfuel : (length (before ++ listing ++ after)
                       < length (assemble (before ++ listing ++ after) ++ [0xc3%Z]))%nat).
      { generalize (before ++ listing ++ after). intros whole.
        pose proof (assemble_length whole). rewrite length_app. cbn [length]. lia. }
      rewrite (disassemble_assemble _ _ Hl Hfuel). now rewrite <- !app_assoc.
    + rewrite <- El. apply (exec_multiply registers ks kd cs cd Hcs Hcd Hks Hkd x).
  - intros s d registers ks kd cs cd x Hs Hd Hcs Hcd Hlen.
    destruct (single_listing "*" s d registers ks kd cs cd eq_refl Hs Hd Hcs Hcd Hlen)
      as (l & Hl & Hc & _).
    exists (assemble l ++ [0xc3]). split; [assumption|].
    apply (single_invoke "*" registers ks kd cs cd Hcs Hcd Hlen l x Hl).
  - intros c d x. exists (assemble (multiply 0 16) ++ [0xc3]).
    split; [vm_compute; reflexivity|].
    exact (single_invoke "*" [Complex 2 3; Complex 4 (-1); c; d] 0 1 _ _
             eq_refl eq_refl ltac:(simpl; lia) (multiply 0 16) x eq_refl).
Qed.

(** C5, witness: the multiplication in ["+ac*ab=bd"] with a = (2, 3),
    b = (4, -1). *)
Lemma multiply_computes_complex_product_witness :
  let p : list insn := [("+", "a", "c")]%char in
  let registers := [Complex 2 3; Complex 4 (-1); origin; origin] in
  let fn := match compile "+ac*ab=bd" with Ok f => f | _ => [] end in
  Forall known_insn p /\
  compile "+ac*ab=bd" = Ok fn /\
  reg_index "a" = Z.of_nat 0 /\ reg_index "b" = Z.of_nat 1 /\
  registers !! 0%nat = Some (Complex 2 3) /\
  registers !! 1%nat = Some (Complex 4 (-1)) /\
  (length registers <= 8)%nat /\
  (exists before after,
      body "+ac" = Some before /\
      disassemble (length fn) fn =
        Some (before ++
              [MOVSD_load 0 0; MOVSD_load 1 8; MOVSD_load 2 16; MOVSD_load 3 24;
               MOVSD_rr 4 0; MULSD 4 2; MOVSD_rr 5 1; MULSD 5 3; SUBSD 4 5;
               MOVSD_store 16 4; MULSD 3 0; MULSD 2 1; ADDSD 2 3;
               MOVSD_store 24 2] ++ after ++ [RET])) /\
  exists x',
    exec [MOVSD_load 0 0; MOVSD_load 1 8; MOVSD_load 2 16; MOVSD_load 3 24;
          MOVSD_rr 4 0; MULSD 4 2; MOVSD_rr 5 1; MULSD 5 3; SUBSD 4 5;
          MOVSD_store 16 4; MULSD 3 0; MULSD 2 1; ADDSD 2 3; MOVSD_store 24 2]
         {| xmms := idle; mem := registers |} =
      Some {| xmms := x';
              mem := [Complex 2 3; Complex 11 10; origin; origin] |}.
Proof.
  intros p registers fn.
  assert (H0 : Forall known_insn p) by (repeat constructor).
  assert (Hc : compile (text p (String "*" (String "a" (String "b" "=bd")))) = Ok fn)
    by reflexivity.
  assert (H1 : reg_index "a" = Z.of_nat 0) by reflexivity.
  assert (H2 : reg_index "b" = Z.of_nat 1) by reflexivity.
  assert (H3 : registers !! 0%nat = Some (Complex 2 3)) by reflexivity.
  assert (H4 : registers !! 1%nat = Some (Complex 4 (-1))) by reflexivity.
  assert (H5 : (length registers <= 8)%nat) by (simpl; lia).
  split; [assumption|]. split; [assumption|]. split; [assumption|].
  split; [assumption|]. split; [assumption|]. split; [assumption|].
  split; [assumption|].
  exact (proj1 multiply_computes_complex_product p "a"%char "b"%char "=bd"%string fn registers
           0%nat 1%nat _ _ idle H0 Hc H1 H2 H3 H4 H5).
Defined.

(** C6.  Every routine [compile] returns is the code of its instructions
    followed by the single byte 0xC3: the last byte is [ret], the routine
    disassembles to a listing whose last instruction is [ret], and no other
    instruction of the listing is a [ret]. *)
Theorem compile_ends_with_ret code fn :
  compile code = Ok fn ->
  exists l,
    fn = assemble l ++ [0xc3] /\
    last fn = Some 0xc3 /\
    disassemble (length fn) fn = Some (l ++ [RET]) /\
    Forall (fun i => is_ret i = false) l.
Proof.
  intros Hc. apply compile_body in Hc as (l & Hb & Hl & -> & _).
  exists l. split; [reflexivity|]. split; [apply last_snoc|].
  split.
  - apply disassemble_assemble; [assumption|].
    rewrite length_app. pose proof (assemble_length l). simpl. lia.
  - eapply Forall_impl; [exact Hl|]. intros i [_ Hi]. now destruct i.
Qed.

(** C6, witness: the empty program. *)
Lemma compile_ends_with_ret_witness :
  compile EmptyString = Ok [0xc3] /\
  exists l,
    [0xc3] = assemble l ++ [0xc3] /\
    last [0xc3] = Some 0xc3 /\
    disassemble (length [0xc3]) [0xc3] = Some (l ++ [RET]) /\
    Forall (fun i => is_ret i = false) l.
Proof.
  split; [reflexivity|]. exact (compile_ends_with_ret EmptyString [0xc3] eq_refl).
Defined.

(** C7, counterexample.  With nine registers the letter [i] is a valid
    operand, but its displacement 128 is narrowed to -128: the store of
    ["=ai"] addresses memory below the register file. *)
Lemma ninth_register_outside_file :
  let fn := [102; 15; 16; 71; 0; 102; 15; 17; 71; 128; 195] in
  compile "=ai"%string = Ok fn /\
  operands_ok 9 "=ai"%string = true /\
  disassemble (length fn) fn =
    Some [MOVUPD_load 0 0; MOVUPD_store (-128) 0; RET] /\
  ~ inside 9 (MOVUPD_store (-128) 0) /\
  invoke fn (replicate 9 (Complex 0 0)) idle = None.
Proof.
  split; [reflexivity|]. split; [reflexivity|]. split; [reflexivity|].
  split; [|reflexivity]. unfold inside. simpl. lia.
Qed.

(** C7, as amended.  For a register count [n <= 8] and a program whose
    operands are all below [n], every memory operand of the compiled routine
    lies within [0, 16 * n); the routine consists of moves and arithmetic
    followed by [ret], with no comparison or branch; and called on a file of
    [n] registers it returns without touching memory outside the file. *)
Theorem accesses_inside_register_file code fn n :
  compile code = Ok fn ->
  0 <= n <= 8 ->
  operands_ok n code = true ->
  exists l,
    disassemble (length fn) fn = Some (l ++ [RET]) /\
    Forall (inside n) l /\
    forall registers x,
      Z.of_nat (length registers) = n ->
      exists registers',
        invoke fn registers x = Some registers' /\
        length registers' = length registers.
Proof.
  intros Hc Hn Hok.
  apply compile_body in Hc as (l & Hb & Hl & -> & _).
  exists l. split.
  { apply disassemble_assemble; [assumption|].
    rewrite length_app. pose proof (assemble_length l). simpl. lia. }
  split; [eapply body_inside; eauto|].
  intros registers x Hlen. subst n.
  destruct (body_sound code l registers x Hb ltac:(lia) Hok) as (x' & r' & He & _ & Hl').
  exists r'. rewrite invoke_assemble, He by assumption. auto.
Qed.

(** C7, witness: four registers. *)
Lemma accesses_inside_register_file_witness :
  let code := "*ab+bc=cd*dd"%string in
  let fn := match compile code with Ok f => f | _ => [] end in
  compile code = Ok fn /\ 0 <= 4 <= 8 /\ operands_ok 4 code = true /\
  exists l,
    disassemble (length fn) fn = Some (l ++ [RET]) /\
    Forall (inside 4) l /\
    forall registers x,
      Z.of_nat (length registers) = 4 ->
      exists registers',
        invoke fn registers x = Some registers' /\
        length registers' = length registers.
Proof.
  intros code fn.
  assert (H1 : compile code = Ok fn) by reflexivity.
  assert (H2 : 0 <= 4 <= 8) by lia.
  assert (H3 : operands_ok 4 code = true) by reflexivity.
  split; [assumption|]. split; [assumption|]. split; [assumption|].
  exact (accesses_inside_register_file code fn 4 H1 H2 H3).
Defined.

(** C8.  The routine compiled from ["=ab"] depends only on the register
    file it is given, not on the vector registers at the call; with
    a = (3, 4), b = (9, -1) it yields b = (3, 4), and called again on its own
    output it changes nothing. *)
Theorem assign_is_pure :
  exists fn,
    compile "=ab"%string = Ok fn /\
    (forall registers x x', invoke fn registers x = invoke fn registers x') /\
    (forall c d x,
        invoke fn [Complex 3 4; Complex 9 (-1); c; d] x =
          Some [Complex 3 4; Complex 3 4; c; d]) /\
    (forall c d x,
        invoke fn [Complex 3 4; Complex 3 4; c; d] x =
          Some [Complex 3 4; Complex 3 4; c; d]).
Proof.
  exists (assemble (assign 0 16) ++ [0xc3]).
  split; [reflexivity|]. split; [apply invoke_assign_pure|].
  split; intros c d x; reflexivity.
Qed.

(** C9, counterexample.  For r = 2^-1074 and i = 0.5 the double value of
    [2*r*i] is 2^-1074, but the routine stores 0 in the imaginary part: the
    product [r*i] is rounded to 0 before it is added to itself. *)
Lemma square_imaginary_part_not_2ri :
  let r := 0x1p-1074%float in
  let i := 0.5%float in
  exists fn,
    compile "*aa"%string = Ok fn /\
    invoke fn [Complex r i; Complex 0 0; Complex 0 0; Complex 0 0] idle =
      Some [Complex (-0.25) 0; Complex 0 0; Complex 0 0; Complex 0 0] /\
    (2 * r * i)%float = 0x1p-1074%float /\
    invoke fn [Complex r i; Complex 0 0; Complex 0 0; Complex 0 0] idle <>
      Some [Complex (r * r - i * i) (2 * r * i); Complex 0 0; Complex 0 0; Complex 0 0].
Proof.
  intros r i. eexists. split; [vm_compute; reflexivity|].
  split; [vm_compute; reflexivity|]. split; [reflexivity|].
  intros H.
  apply (f_equal (fun o => match o with
                           | Some (c :: _) => PrimFloat.eqb (im c) 0
                           | _ => false
                           end)) in H.
  vm_compute in H. discriminate.
Qed.

(** C9, as amended.  For a register [s], of a file of at most 8 registers,
    holding (r, i), the routine compiled from ["*ss"] leaves
    (r*r - i*i, r*i + i*r) in it, in double arithmetic, which is also what
    [interpret] computes: all four operands are in vector registers before
    the first store. *)
Theorem square_in_place s registers x k r i :
  reg_index s = Z.of_nat k ->
  registers !! k = Some {| re := r; im := i |} ->
  (length registers <= 8)%nat ->
  let code := String "*" (String s (String s EmptyString)) in
  let square := {| re := (r * r - i * i)%float; im := (r * i + i * r)%float |} in
  exists fn,
    compile code = Ok fn /\
    invoke fn registers x = Some (<[k := square]> registers) /\
    interpret registers code = Ok (<[k := square]> registers).
Proof.
  intros Hs Hk Hlen code square.
  destruct (single_listing "*" s s registers k k _ _ eq_refl Hs Hs Hk Hk Hlen)
    as (l & Hl & Hc & _).
  exists (assemble l ++ [0xc3]). split; [assumption|]. split.
  - apply (single_invoke "*" registers k k _ _ Hk Hk Hlen l x Hl).
  - apply (single_interpret "*" s s registers k k _ _ eq_refl Hs Hs Hk Hk).
Qed.

(** C9, witness: squaring b = (3, -4) gives (-7, -24). *)
Lemma square_in_place_witness :
  let registers := [Complex 0x1p-1074 0.5; Complex 3 (-4)] in
  reg_index "b" = Z.of_nat 1 /\
  registers !! 1%nat = Some {| re := 3; im := -4 |} /\
  (length registers <= 8)%nat /\
  exists fn,
    compile "*bb"%string = Ok fn /\
    invoke fn registers idle = Some [Complex 0x1p-1074 0.5; Complex (-7) (-24)] /\
    interpret registers "*bb"%string = Ok [Complex 0x1p-1074 0.5; Complex (-7) (-24)].
Proof.
  intros registers.
  assert (H1 : reg_index "b" = Z.of_nat 1) by reflexivity.
  assert (H2 : registers !! 1%nat = Some {| re := 3; im := -4 |}) by reflexivity.
  assert (H3 : (length registers <= 8)%nat) by (simpl; lia).
  split; [assumption|]. split; [assumption|]. split; [assumption|].
  exact (square_in_place "b" registers idle 1 3 (-4) H1 H2 H3).
Defined.

(** C10.  The empty program compiles to the single byte 0xC3, and calling
    that routine leaves every register file unchanged. *)
Theorem empty_program_is_identity :
  compile EmptyString = Ok [0xc3] /\
  forall registers x, invoke [0xc3] registers x = Some registers.
Proof. split; reflexivity. Qed.

(** * Further properties of the code *)

Lemma asm_write_overrun bytes : forall a,
  dest a <= PAGE_SIZE -> PAGE_SIZE < dest a + Z.of_nat (length bytes) ->
  asm_write a bytes = Undefined BufferOverrun.
Proof.
  induction bytes as [|b bs IH]; intros a Hle Hgt; [simpl in Hgt; lia|].
  cbn [asm_write]. unfold store_byte.
  destruct (Z.ltb_spec (dest a) PAGE_SIZE) as [Hlt|Hge]; [|reflexivity].
  cbn [bind]. apply IH; cbn [dest length] in *; lia.
Qed.

(** X1.  [asm_write] stores its bytes, reduced to 8 bits, behind the bytes
    already in the page and advances [dest] by their number when they fit
    into the 4096-byte page; when they do not fit it stores beyond the page
    (undefined behaviour), as there is no bounds check. *)
Theorem asm_write_fits_or_overruns a bytes :
  dest a <= PAGE_SIZE ->
  (dest a + Z.of_nat (length bytes) <= PAGE_SIZE ->
   asm_write a bytes = stored a (map (fun b => b mod 256) bytes)) /\
  (PAGE_SIZE < dest a + Z.of_nat (length bytes) ->
   asm_write a bytes = Undefined BufferOverrun).
Proof.
  intros Hle. split.
  - intros Hroom. rewrite asm_write_room by assumption. unfold stored.
    now rewrite length_map.
  - now apply asm_write_overrun.
Qed.

(** An instance of [asm_write_fits_or_overruns]. *)
Lemma asm_write_fits_or_overruns_witness :
  let a := {| dest := 4094; image := [] |} in
  dest a <= PAGE_SIZE /\
  asm_write a [0x1c3; -1] = stored a [0xc3; 0xff] /\
  asm_write a [1; 2; 3] = Undefined BufferOverrun.
Proof.
  intros a.
  assert (H : dest a <= PAGE_SIZE) by (vm_compute; discriminate).
  split; [assumption|]. split.
  - exact (proj1 (asm_write_fits_or_overruns a [0x1c3; -1] H)
             ltac:(vm_compute; discriminate)).
  - exact (proj2 (asm_write_fits_or_overruns a [1; 2; 3] H) eq_refl).
Defined.

Lemma emits_intro a i r :
  plain i -> dest a + Z.of_nat (length (encode i)) <= PAGE_SIZE ->
  r = emit a [i] -> emits r a i.
Proof.
  intros Hi Hroom ->. exists (encode i). split; [now apply emit_one|].
  intros rest. destruct Hi. now apply decode_encode.
Qed.

(** X2.  For register numbers below 8, the bytes each of the nine emitters
    stores decode to the instruction the emitter is named after, with the
    registers given and the displacement narrowed to a signed byte. *)
Theorem emitted_bytes_decode a disp reg reg' :
  reg_ok reg -> reg_ok reg' -> dest a + 5 <= PAGE_SIZE ->
  emits (movpd_reg_memory a reg disp) a (MOVUPD_store (C.to_char disp) reg) /\
  emits (movpd_memory_reg a disp reg) a (MOVUPD_load reg (C.to_char disp)) /\
  emits (addpd_memory_reg a disp reg) a (ADDPD_mem reg (C.to_char disp)) /\
  emits (movsd_reg_memory a reg disp) a (MOVSD_store (C.to_char disp) reg) /\
  emits (movsd_memory_reg a disp reg) a (MOVSD_load reg (C.to_char disp)) /\
  emits (movsd_reg_reg a reg reg') a (MOVSD_rr reg' reg) /\
  emits (mulsd a reg reg') a (MULSD reg' reg) /\
  emits (addsd a reg reg') a (ADDSD reg' reg) /\
  emits (subsd a reg reg') a (SUBSD reg' reg).
Proof.
  intros Hr Hr' Hroom. pose proof (to_char_range disp) as Hd.
  repeat split;
    (apply emits_intro;
     [split; [simpl; auto|discriminate]
     |simpl; lia
     |lazymatch goal with
      | |- movpd_memory_reg _ _ _ = _ => apply movpd_memory_reg_emit
      | |- movpd_reg_memory _ _ _ = _ => apply movpd_reg_memory_emit
      | |- addpd_memory_reg _ _ _ = _ => apply addpd_memory_reg_emit
      | |- movsd_memory_reg _ _ _ = _ => apply movsd_memory_reg_emit
      | |- movsd_reg_memory _ _ _ = _ => apply movsd_reg_memory_emit
      | |- movsd_reg_reg _ _ _ = _ => apply movsd_reg_reg_emit
      | |- mulsd _ _ _ = _ => apply mulsd_emit
      | |- addsd _ _ _ = _ => apply addsd_emit
      | |- subsd _ _ _ = _ => apply subsd_emit
      end; assumption]).
Qed.

(** An instance of [emitted_bytes_decode]. *)
Lemma emitted_bytes_decode_witness :
  let a := {| dest := 100; image := [1; 2] |} in
  reg_ok 2 /\ reg_ok 5 /\ dest a + 5 <= PAGE_SIZE /\
  emits (movsd_reg_memory a 2 (-8)) a (MOVSD_store (-8) 2) /\
  emits (mulsd a 2 5) a (MULSD 5 2).
Proof.
  intros a.
  assert (H1 : reg_ok 2) by (unfold reg_ok; lia).
  assert (H2 : reg_ok 5) by (unfold reg_ok; lia).
  assert (H3 : dest a + 5 <= PAGE_SIZE) by (vm_compute; discriminate).
  split; [assumption|]. split; [assumption|]. split; [assumption|].
  pose proof (emitted_bytes_decode a (-8) 2 5 H1 H2 H3) as H.
  split; [exact (proj1 (proj2 (proj2 (proj2 H))))|].
  exact (proj1 (proj2 (proj2 (proj2 (proj2 (proj2 (proj2 H))))))).
Defined.

(** X3.  The emitters with a memory operand emit no prefix byte: for the
    register numbers 8 to 15 they store the same bytes as for the numbers 0
    to 7. *)
Theorem memory_emitters_alias_high_registers a disp reg :
  8 <= reg < 16 ->
  movpd_reg_memory a reg disp = movpd_reg_memory a (reg - 8) disp /\
  movpd_memory_reg a disp reg = movpd_memory_reg a disp (reg - 8) /\
  addpd_memory_reg a disp reg = addpd_memory_reg a disp (reg - 8) /\
  movsd_reg_memory a reg disp = movsd_reg_memory a (reg - 8) disp /\
  movsd_memory_reg a disp reg = movsd_memory_reg a disp (reg - 8).
Proof.
  intros H.
  assert (E : reg = 8 \/ reg = 9 \/ reg = 10 \/ reg = 11 \/ reg = 12 \/
              reg = 13 \/ reg = 14 \/ reg = 15) by lia.
  destruct E as [->|[->|[->|[->|[->|[->|[->| ->]]]]]]]; repeat split; reflexivity.
Qed.

(** An instance of [memory_emitters_alias_high_registers]. *)
Lemma memory_emitters_alias_high_registers_witness :
  8 <= 9 < 16 /\
  movsd_memory_reg {| dest := 0; image := [] |} 16 9 =
    stored {| dest := 0; image := [] |} [0xf2; 0x0f; 0x10; 0x4f; 16].
Proof.
  assert (H : 8 <= 9 < 16) by lia.
  split; [assumption|].
  rewrite (proj2 (proj2 (proj2 (proj2
             (memory_emitters_alias_high_registers
                {| dest := 0; image := [] |} 16 9 H))))).
  reflexivity.
Defined.

Lemma size_nonneg p : 0 <= size p.
Proof.
  induction p as [|[[o ?] ?] p IHp]; simpl; [lia|].
  unfold emitted. destruct (Ascii.eqb o "="), (Ascii.eqb o "+"), (Ascii.eqb o "*"); lia.
Qed.

(** X4.  A routine returned by [compile] has 10 bytes for every ['='], 15
    for every ['+'] and 62 for every ['*'] instruction, and one for the final
    [ret]; the total is at most the page size. *)
Theorem routine_length p fn :
  Forall known_insn p ->
  compile (text p EmptyString) = Ok fn ->
  Z.of_nat (length fn) = size p + 1 /\ size p + 1 <= PAGE_SIZE.
Proof.
  intros Hp Hc. destruct (body_text p Hp) as (l & Hl & Hsz).
  apply compile_body in Hc as (l' & Hl' & _ & -> & Hle).
  assert (l' = l) by congruence. subst l'.
  rewrite length_app in *. simpl in *. lia.
Qed.

(** An instance of [routine_length]. *)
Lemma routine_length_witness :
  let p : list insn := [("*", "b", "b"); ("+", "a", "b")]%char in
  let fn := match compile "*bb+ab" with Ok f => f | _ => [] end in
  Forall known_insn p /\ compile "*bb+ab" = Ok fn /\
  Z.of_nat (length fn) = 78 /\ 78 <= PAGE_SIZE.
Proof.
  intros p fn.
  assert (H1 : Forall known_insn p) by (repeat constructor).
  assert (H2 : compile (text p EmptyString) = Ok fn) by reflexivity.
  split; [assumption|]. split; [assumption|].
  exact (routine_length p fn H1 H2).
Defined.

Lemma compile_loop_overrun p : forall a,
  Forall known_insn p ->
  dest a <= PAGE_SIZE -> PAGE_SIZE < dest a + size p + 1 ->
  compile_loop (text p EmptyString) a = Undefined BufferOverrun.
Proof.
  induction p as [|[[op s] d] p IH]; intros a Hp Hle Hgt.
  - cbn [text compile_loop size] in *. apply asm_write_overrun; [assumption|simpl; lia].
  - apply Forall_cons in Hp as [Hop Hp]. unfold known_insn in Hop. cbn [fst] in Hop.
    cbn [text size compile_loop] in *. rewrite (known_not_nul _ Hop).
    rewrite compile_switch_select.
    destruct (select_size op (displacement s) (displacement d) Hop) as (l1 & Hl1 & Hs1).
    rewrite Hl1.
    destruct (Z_le_gt_dec (dest a + emitted op) PAGE_SIZE) as [Hfit|Hov].
    + rewrite emit_room; [|eapply plain_encodable, select_plain; eauto|lia].
      cbn [bind]. apply IH; [assumption|simpl; lia|simpl; lia].
    + unfold emit. rewrite asm_write_overrun by lia. reflexivity.
Qed.

(** X5.  A program of known instructions whose code, with the final [ret],
    exceeds 4096 bytes makes [compile] store beyond the page it mapped:
    nothing checks the space left. *)
Theorem long_program_overruns_page p :
  Forall known_insn p -> PAGE_SIZE < size p + 1 ->
  compile (text p EmptyString) = Undefined BufferOverrun.
Proof.
  intros Hp Hgt. unfold compile.
  rewrite compile_loop_overrun; [reflexivity|assumption|simpl; unfold PAGE_SIZE; lia|].
  simpl. lia.
Qed.

(** An instance of [long_program_overruns_page]. *)
Lemma long_program_overruns_page_witness :
  let p : list insn := replicate 67 ("*", "a", "a")%char in
  Forall known_insn p /\ PAGE_SIZE < size p + 1 /\
  compile (text p EmptyString) = Undefined BufferOverrun.
Proof.
  intros p.
  assert (H1 : Forall known_insn p) by (apply Forall_replicate; reflexivity).
  assert (H2 : PAGE_SIZE < size p + 1) by reflexivity.
  split; [assumption|]. split; [assumption|].
  exact (long_program_overruns_page p H1 H2).
Defined.

(** X6.  A program text that ends in the middle of an instruction makes
    [compile] read beyond the terminating NUL: after a single remaining
    operation byte it reads the second operand behind the terminator, and
    after an operation and one operand it emits code and then steps over the
    terminator. *)
Theorem truncated_instruction_reads_past_terminator p op :
  Forall known_insn p -> size p <= PAGE_SIZE -> C.is_nul op = false ->
  compile (text p (String op EmptyString)) = Undefined ReadPastTerminator /\
  (known op = true -> size p + emitted op <= PAGE_SIZE ->
   forall s, compile (text p (String op (String s EmptyString))) =
               Undefined ReadPastTerminator).
Proof.
  intros Hp Hroom Hnul. pose proof (size_nonneg p) as Hnn. split.
  - unfold compile.
    destruct (compile_loop_text p (String op EmptyString) {| dest := 0; image := [] |} Hp)
      as (a' & _ & ->); [simpl; lia|].
    cbn [compile_loop]. now rewrite Hnul.
  - intros Hop Hfit s. unfold compile.
    destruct (compile_loop_text p (String op (String s EmptyString))
                {| dest := 0; image := [] |} Hp) as (a' & Hd & ->); [simpl; lia|].
    cbn [compile_loop]. rewrite Hnul, compile_switch_select.
    destruct (select_size op (displacement s) (displacement Ascii.zero) Hop)
      as (l1 & Hl1 & Hs1).
    rewrite Hl1, emit_room; [reflexivity|eapply plain_encodable, select_plain; eauto|].
    simpl in Hd. lia.
Qed.

(** An instance of [truncated_instruction_reads_past_terminator]. *)
Lemma truncated_instruction_reads_past_terminator_witness :
  let p : list insn := [("=", "a", "b")]%char in
  Forall known_insn p /\ size p <= PAGE_SIZE /\ C.is_nul "+" = false /\
  compile "=ab+" = Undefined ReadPastTerminator /\
  compile "=ab+a" = Undefined ReadPastTerminator.
Proof.
  intros p.
  assert (H1 : Forall known_insn p) by (repeat constructor).
  assert (H2 : size p <= PAGE_SIZE) by (vm_compute; discriminate).
  assert (H3 : C.is_nul "+" = false) by reflexivity.
  split; [assumption|]. split; [assumption|]. split; [assumption|].
  pose proof (truncated_instruction_reads_past_terminator p "+"%char H1 H2 H3) as H.
  split; [exact (proj1 H)|].
  exact (proj2 H eq_refl ltac:(vm_compute; discriminate) "a"%char).
Defined.

Lemma get_outside registers k :
  ~ (0 <= k < Z.of_nat (length registers)) ->
  get registers k = Undefined OutOfBounds.
Proof.
  intros H. unfold get, element.
  replace ((0 <=? k) && (k <? Z.of_nat (length registers))) with false by lia.
  reflexivity.
Qed.

Lemma get_inside registers k :
  0 <= k < Z.of_nat (length registers) ->
  exists c, registers !! Z.to_nat k = Some c /\ get registers k = Ok c.
Proof.
  intros H. destruct (lookup_lt_is_Some_2 registers (Z.to_nat k)) as [c Hc]; [lia|].
  exists c. split; [assumption|]. rewrite <- (Z2Nat.id k) by lia.
  now apply get_ok.
Qed.

Lemma get_cases registers k :
  get registers k = Undefined OutOfBounds \/ exists c, get registers k = Ok c.
Proof.
  destruct (Z_lt_dec k 0); [left; apply get_outside; lia|].
  destruct (Z_lt_dec k (Z.of_nat (length registers)));
    [|left; apply get_outside; lia].
  right. destruct (get_inside registers k) as (c & _ & ->); [lia|]. eauto.
Qed.

(** X7.  [interpret] accesses the register file without a check: an
    instruction with a known operation and an operand that does not name a
    register of the file is an access outside the array. *)
Theorem interpret_operand_outside_file registers op s d rest :
  known op = true ->
  operand_ok (Z.of_nat (length registers)) s
    && operand_ok (Z.of_nat (length registers)) d = false ->
  interpret registers (String op (String s (String d rest))) =
    Undefined OutOfBounds.
Proof.
  intros Hop Hbad. cbn [interpret]. rewrite (known_not_nul _ Hop).
  assert (Hcase : ~ (0 <= reg_index s < Z.of_nat (length registers)) \/
                  0 <= reg_index s < Z.of_nat (length registers) /\
                  ~ (0 <= reg_index d < Z.of_nat (length registers))).
  { unfold operand_ok in Hbad. lia. }
  assert (E : interpret_switch (String op (String s (String d rest))) op
                (reg_index d) (reg_index s) registers = Undefined OutOfBounds).
  { unfold interpret_switch, known, set_r in *.
    destruct Hcase as [Hs|[Hs Hd]].
    - rewrite (get_outside _ _ Hs).
      destruct (get_cases registers (reg_index d)) as [->|[c ->]];
        destruct (Ascii.eqb op "="), (Ascii.eqb op "+"), (Ascii.eqb op "*");
        try reflexivity; discriminate.
    - rewrite (get_outside _ _ Hd).
      destruct (get_inside _ _ Hs) as (c & _ & ->).
      destruct (Ascii.eqb op "="); [reflexivity|].
      destruct (Ascii.eqb op "+"); [reflexivity|].
      destruct (Ascii.eqb op "*"); [reflexivity|discriminate]. }
  now rewrite E.
Qed.

(** An instance of [interpret_operand_outside_file]. *)
Lemma interpret_operand_outside_file_witness :
  let registers := [origin; origin; origin; origin] in
  known "+" = true /\
  operand_ok (Z.of_nat (length registers)) "a"
    && operand_ok (Z.of_nat (length registers)) "e" = false /\
  interpret registers "+ae=ab" = Undefined OutOfBounds.
Proof.
  intros registers.
  assert (H1 : known "+" = true) by reflexivity.
  assert (H2 : operand_ok (Z.of_nat (length registers)) "a"
               && operand_ok (Z.of_nat (length registers)) "e" = false) by reflexivity.
  split; [assumption|]. split; [assumption|].
  exact (interpret_operand_outside_file registers "+" "a" "e" "=ab" H1 H2).
Defined.

Lemma interpret_text p : forall registers,
  Forall (insn_ok (Z.of_nat (length registers))) p ->
  exists registers',
    length registers' = length registers /\
    (forall k, Forall (fun i => dst_index i <> Z.of_nat k) p ->
               registers' !! k = registers !! k) /\
    (forall tail, interpret registers (text p tail) = interpret registers' tail).
Proof.
  induction p as [|[[op s] d] p IH]; intros registers Hp.
  - exists registers. auto.
  - apply Forall_cons in Hp as [(Hop & Hs & Hd) Hp]. cbn [fst snd] in *.
    unfold operand_ok in Hs, Hd.
    destruct (get_inside registers (reg_index s)) as (cs & Hcs & _); [lia|].
    destruct (get_inside registers (reg_index d)) as (cd & Hcd & _); [lia|].
    set (r1 := <[Z.to_nat (reg_index d) := apply_op op cs cd]> registers).
    assert (Hlen : length r1 = length registers) by apply length_insert.
    destruct (IH r1) as (r' & Hl' & Hframe & Hrun); [now rewrite Hlen|].
    exists r'. split; [congruence|]. split.
    + intros k Hk. apply Forall_cons in Hk as [Hk1 Hk].
      rewrite (Hframe k Hk). unfold r1. apply list_lookup_insert_ne.
      unfold dst_index in Hk1. cbn [snd] in Hk1. lia.
    + intros tl. cbn [text interpret]. rewrite (known_not_nul _ Hop).
      rewrite <- (Z2Nat.id (reg_index s)), <- (Z2Nat.id (reg_index d)) by lia.
      rewrite (interpret_switch_ok _ op _ _ _ _ _ Hcs Hcd Hop). cbn [bind].
      apply Hrun.
Qed.

(** X8.  After instructions that are valid for the register file, an
    unknown operation byte makes [interpret] exit with status 1 and the same
    message as [compile]: the text from the offending instruction on and the
    byte in hexadecimal. *)
Theorem interpret_unknown_opcode_exits registers p op s d rest :
  Forall (insn_ok (Z.of_nat (length registers))) p ->
  known op = false -> C.is_nul op = false ->
  let bad := String op (String s (String d rest)) in
  interpret registers (text p bad) = Exit 1 (undefined_instruction bad).
Proof.
  intros Hp Hop Hnul bad.
  destruct (interpret_text p registers Hp) as (r' & _ & _ & Hrun).
  rewrite Hrun.
  unfold bad. cbn [interpret]. rewrite Hnul.
  unfold interpret_switch, known in *.
  destruct (Ascii.eqb op "="), (Ascii.eqb op "+"), (Ascii.eqb op "*");
    simpl in Hop; try discriminate. reflexivity.
Qed.

(** An instance of [interpret_unknown_opcode_exits]. *)
Lemma interpret_unknown_opcode_exits_witness :
  let registers := [origin; origin; origin; origin] in
  let p : list insn := [("*", "b", "b"); ("+", "a", "b")]%char in
  Forall (insn_ok (Z.of_nat (length registers))) p /\
  known "/" = false /\ C.is_nul "/" = false /\
  interpret registers "*bb+ab/ab" =
    Exit 1 ("undefined instruction /ab (ASCII 2f)" ++ newline).
Proof.
  intros registers p.
  assert (H1 : Forall (insn_ok (Z.of_nat (length registers))) p)
    by (repeat constructor).
  assert (H2 : known "/" = false) by reflexivity.
  assert (H3 : C.is_nul "/" = false) by reflexivity.
  split; [assumption|]. split; [assumption|]. split; [assumption|].
  exact (interpret_unknown_opcode_exits registers p "/" "a" "b" EmptyString H1 H2 H3).
Defined.

(** X9.  On a program of valid instructions [interpret] returns, keeps the
    number of registers, and leaves unchanged every register that is not the
    destination of an instruction. *)
Theorem interpret_changes_only_destinations registers p :
  Forall (insn_ok (Z.of_nat (length registers))) p ->
  exists registers',
    interpret registers (text p EmptyString) = Ok registers' /\
    length registers' = length registers /\
    forall k, Forall (fun i => dst_index i <> Z.of_nat k) p ->
              registers' !! k = registers !! k.
Proof.
  intros Hp. destruct (interpret_text p registers Hp) as (r' & Hlen & Hframe & Hrun).
  exists r'. rewrite Hrun. auto.
Qed.

(** An instance of [interpret_changes_only_destinations]. *)
Lemma interpret_changes_only_destinations_witness :
  let registers := [Complex 1 2; Complex 3 4; Complex 5 6; Complex 7 8] in
  let p : list insn := [("*", "a", "b"); ("+", "b", "d")]%char in
  Forall (insn_ok (Z.of_nat (length registers))) p /\
  exists registers',
    interpret registers "*ab+bd" = Ok registers' /\
    length registers' = length registers /\
    forall k, Forall (fun i => dst_index i <> Z.of_nat k) p ->
              registers' !! k = registers !! k.
Proof.
  intros registers p.
  assert (H1 : Forall (insn_ok (Z.of_nat (length registers))) p)
    by (repeat constructor).
  split; [assumption|].
  exact (interpret_changes_only_destinations registers p H1).
Defined.

Lemma operands_ok_text n p :
  Forall (insn_ok n) p -> operands_ok n (text p EmptyString) = true.
Proof.
  induction 1 as [|[[op s] d] p (Hop & Hs & Hd) _ IH]; [reflexivity|].
  cbn [text operands_ok fst snd] in *. rewrite Hs, Hd, IH. apply orb_true_r.
Qed.

Lemma insn_ok_known n p : Forall (insn_ok n) p -> Forall known_insn p.
Proof. intros H. eapply Forall_impl; [exact H|]. now intros i [? _]. Qed.

(** X10.  The routine compiled from a program of valid instructions, called
    on a file of at most 8 registers, returns, keeps the number of registers
    and leaves unchanged every register that is not the destination of an
    instruction. *)
Theorem routine_changes_only_destinations registers p fn x :
  Forall (insn_ok (Z.of_nat (length registers))) p ->
  Z.of_nat (length registers) <= 8 ->
  compile (text p EmptyString) = Ok fn ->
  exists registers',
    invoke fn registers x = Some registers' /\
    length registers' = length registers /\
    forall k, Forall (fun i => dst_index i <> Z.of_nat k) p ->
              registers' !! k = registers !! k.
Proof.
  intros Hp Hn Hc.
  apply compile_body in Hc as (l & Hb & Hl & -> & _).
  destruct (body_sound _ l registers x Hb Hn (operands_ok_text _ _ Hp))
    as (x' & r1 & He & Hi & _).
  destruct (interpret_text p registers Hp) as (r' & Hlen & Hframe & Hrun).
  rewrite Hrun in Hi. cbn [interpret] in Hi. injection Hi as <-.
  exists r'. rewrite invoke_assemble, He by assumption. auto.
Qed.

(** An instance of [routine_changes_only_destinations]. *)
Lemma routine_changes_only_destinations_witness :
  let registers := [Complex 1 2; Complex 3 4; Complex 5 6; Complex 7 8] in
  let p : list insn := [("*", "a", "b"); ("+", "b", "d")]%char in
  let fn := match compile "*ab+bd" with Ok f => f | _ => [] end in
  Forall (insn_ok (Z.of_nat (length registers))) p /\
  Z.of_nat (length registers) <= 8 /\
  compile "*ab+bd" = Ok fn /\
  exists registers',
    invoke fn registers idle = Some registers' /\
    length registers' = length registers /\
    forall k, Forall (fun i => dst_index i <> Z.of_nat k) p ->
              registers' !! k = registers !! k.
Proof.
  intros registers p fn.
  assert (H1 : Forall (insn_ok (Z.of_nat (length registers))) p)
    by (repeat constructor).
  assert (H2 : Z.of_nat (length registers) <= 8) by (simpl; lia).
  assert (H3 : compile (text p EmptyString) = Ok fn) by reflexivity.
  split; [assumption|]. split; [assumption|]. split; [assumption|].
  exact (routine_changes_only_destinations registers p fn idle H1 H2 H3).
Defined.

(** X18.  The effect of a compiled routine on the register file does not
    depend on what the vector registers hold when it is called: every scratch
    register is written before it is read. *)
Theorem routine_ignores_vector_registers code fn registers x x' :
  compile code = Ok fn ->
  Z.of_nat (length registers) <= 8 ->
  operands_ok (Z.of_nat (length registers)) code = true ->
  invoke fn registers x = invoke fn registers x'.
Proof.
  intros Hc Hn Hok.
  apply compile_body in Hc as (l & Hb & Hl & -> & _).
  destruct (body_sound code l registers x Hb Hn Hok) as (y & r & He & Hi & _).
  destruct (body_sound code l registers x' Hb Hn Hok) as (y' & r' & He' & Hi' & _).
  rewrite !invoke_assemble, He, He' by assumption. simpl. congruence.
Qed.

(** An instance of [routine_ignores_vector_registers]. *)
Lemma routine_ignores_vector_registers_witness :
  let code := "*bb+ab"%string in
  let fn := match compile code with Ok f => f | _ => [] end in
  let registers := [Complex 0.25 0.5; Complex 4 (-1)] in
  compile code = Ok fn /\ Z.of_nat (length registers) <= 8 /\
  operands_ok (Z.of_nat (length registers)) code = true /\
  invoke fn registers idle =
    invoke fn registers (fun n => {| lo := to_double n; hi := 7 |}).
Proof.
  intros code fn registers.
  assert (H1 : compile code = Ok fn) by reflexivity.
  assert (H2 : Z.of_nat (length registers) <= 8) by (simpl; lia).
  assert (H3 : operands_ok (Z.of_nat (length registers)) code = true) by reflexivity.
  split; [assumption|]. split; [assumption|]. split; [assumption|].
  exact (routine_ignores_vector_registers code fn registers idle _ H1 H2 H3).
Defined.

(** X17.  [compile] reduces 16 times the operand index to a signed byte, so
    operand letters whose indices differ by a multiple of 16 get the same
    displacement, and replacing one by the other in an instruction with a
    known operation does not change the outcome of [compile]. *)
Lemma displacement_to_char c : displacement c = C.to_char (16 * reg_index c).
Proof.
  unfold displacement, reg_index, C.to_ulong, sizeof_complex.
  set (k := C.char_of_ascii c - C.char_of_ascii "a").
  rewrite <- (to_char_mod (16 * k)), <- to_char_mod. f_equal.
  change 256 with (2 ^ 8). change (2 ^ 64) with (2 ^ 8 * 2 ^ 56).
  Z.div_mod_to_equations. lia.
Qed.

Theorem displacement_period_16 op s s' d d' rest :
  (reg_index s' - reg_index s) mod 16 = 0 ->
  (reg_index d' - reg_index d) mod 16 = 0 ->
  displacement s' = displacement s /\
  displacement d' = displacement d /\
  (known op = true ->
   compile (String op (String s' (String d' rest))) =
   compile (String op (String s (String d rest)))).
Proof.
  intros Hs Hd.
  assert (E : forall c c', (reg_index c' - reg_index c) mod 16 = 0 ->
                           displacement c' = displacement c).
  { intros c c' H. rewrite !displacement_to_char.
    rewrite <- (to_char_mod (16 * reg_index c')), <- (to_char_mod (16 * reg_index c)).
    f_equal. Z.div_mod_to_equations. lia. }
  split; [now apply E|]. split; [now apply E|].
  intros Hop. unfold compile. cbn [compile_loop].
  rewrite (known_not_nul _ Hop), !compile_switch_select, (E _ _ Hs), (E _ _ Hd).
  destruct (select_size op (displacement s) (displacement d) Hop) as (l & -> & _).
  reflexivity.
Qed.

(** An instance of [displacement_period_16]. *)
Lemma displacement_period_16_witness :
  (reg_index "q" - reg_index "a") mod 16 = 0 /\
  (reg_index "r" - reg_index "b") mod 16 = 0 /\
  displacement "q" = displacement "a" /\
  displacement "r" = displacement "b" /\
  compile "*qr+ab" = compile "*ab+ab".
Proof.
  assert (H1 : (reg_index "q" - reg_index "a") mod 16 = 0) by reflexivity.
  assert (H2 : (reg_index "r" - reg_index "b") mod 16 = 0) by reflexivity.
  split; [assumption|]. split; [assumption|].
  pose proof (displacement_period_16 "*" "a" "q" "b" "r" "+ab" H1 H2) as H.
  split; [exact (proj1 H)|]. split; [exact (proj1 (proj2 H))|].
  exact (proj2 (proj2 H) eq_refl).
Defined.

Lemma hardcoded_two_registers ra rb rest code :
  Hardcoded.interpret (ra :: rb :: rest) code =
    interpret (ra :: rb :: rest) "*bb+ab".
Proof.
  set (registers := ra :: rb :: rest).
  assert (Ha : registers !! 0%nat = Some ra) by reflexivity.
  assert (Hb : registers !! 1%nat = Some rb) by reflexivity.
  change (interpret registers "*bb+ab") with
    (let* r1 := interpret_switch "*bb+ab" "*" (Z.of_nat 1) (Z.of_nat 1) registers in
     let* r2 := interpret_switch "+ab" "+" (Z.of_nat 1) (Z.of_nat 0) r1 in
     Ok r2).
  rewrite (interpret_switch_ok _ "*" _ 1 1 rb rb Hb Hb eq_refl). cbn [bind].
  set (r1 := <[1%nat := apply_op "*" rb rb]> registers).
  assert (Ha1 : r1 !! 0%nat = Some ra) by reflexivity.
  assert (Hb1 : r1 !! 1%nat = Some (apply_op "*" rb rb)) by reflexivity.
  rewrite (interpret_switch_ok _ "+" r1 0 1 _ _ Ha1 Hb1 eq_refl).
  cbn [bind].
  unfold Hardcoded.interpret.
  change 1 with (Z.of_nat 1). change 0 with (Z.of_nat 0).
  rewrite (get_ok _ _ _ Hb). cbn [bind].
  rewrite (set_r_ok _ _ _ _ Hb). cbn [bind].
  erewrite set_i_ok by reflexivity. cbn [bind].
  erewrite get_ok by reflexivity. cbn [bind].
  erewrite get_ok by reflexivity. cbn [bind].
  erewrite set_r_ok by reflexivity. cbn [bind].
  erewrite get_ok by reflexivity. cbn [bind].
  erewrite get_ok by reflexivity. cbn [bind].
  erewrite set_i_ok by reflexivity.
  reflexivity.
Qed.

(** X11.  The hard-coded interpreter of hardcoded.c, which ignores its
    [code] argument, does to every register file exactly what the interpreter
    of simple.c does for the program ["*bb+ab"]; on a file with fewer than
    two registers both leave the array. *)
Theorem hardcoded_is_square_then_add registers code :
  Hardcoded.interpret registers code = interpret registers "*bb+ab".
Proof.
  destruct registers as [|ra [|rb rest]].
  - reflexivity.
  - reflexivity.
  - apply hardcoded_two_registers.
Qed.

Lemma hardcoded_length registers code registers' :
  Hardcoded.interpret registers code = Ok registers' ->
  length registers' = length registers.
Proof.
  destruct registers as [|ra [|rb rest]]; [discriminate|discriminate|].
  rewrite hardcoded_two_registers.
  change "*bb+ab"%string with
    (text [("*", "b", "b"); ("+", "a", "b")]%char EmptyString).
  intros H.
  destruct (interpret_text [("*", "b", "b"); ("+", "a", "b")]%char (ra :: rb :: rest))
    as (r' & Hlen & _ & Hrun).
  { assert (Hlen2 : 2 <= Z.of_nat (length (ra :: rb :: rest))) by (cbn [length]; lia).
    repeat (apply Forall_cons; split); [..|constructor];
      (split; [reflexivity|]); cbn [fst snd]; unfold operand_ok;
      change (reg_index "a") with 0; change (reg_index "b") with 1; lia. }
  rewrite Hrun in H. cbn [interpret] in H. congruence.
Qed.

Lemma fractal_routine fn registers x code :
  compile "*bb+ab" = Ok fn ->
  (2 <= length registers <= 8)%nat ->
  call_routine fn x registers = Hardcoded.interpret registers code.
Proof.
  intros Hc Hlen.
  destruct registers as [|ra [|rb rest]]; [simpl in Hlen; lia|simpl in Hlen; lia|].
  rewrite hardcoded_two_registers. set (registers := ra :: rb :: rest) in *.
  unfold call_routine.
  apply compile_body in Hc as (l & Hb & Hl & -> & _).
  destruct (body_sound _ l registers x Hb) as (x' & r' & He & Hi & _); [lia| |].
  { cbn [operands_ok]. unfold operand_ok.
    change (reg_index "a") with 0. change (reg_index "b") with 1.
    cbn [C.is_nul]. replace (1 <? Z.of_nat (length registers)) with true by lia.
    replace (0 <? Z.of_nat (length registers)) with true by lia. reflexivity. }
  rewrite invoke_assemble, He, Hi by assumption. reflexivity.
Qed.

(** X12.  Called on a file of 2 to 8 registers, the routine compiled from
    ["*bb+ab"] leaves the register file that the hard-coded interpreter
    leaves. *)
Theorem routine_agrees_with_hardcoded :
  exists fn,
    compile "*bb+ab" = Ok fn /\
    forall registers x code,
      (2 <= length registers <= 8)%nat ->
      call_routine fn x registers = Hardcoded.interpret registers code.
Proof.
  destruct (compile "*bb+ab") as [fn| |] eqn:Hc;
    try (vm_compute in Hc; discriminate).
  exists fn. split; [reflexivity|].
  intros registers x code Hlen. now apply fractal_routine.
Qed.

(** An instance of [routine_agrees_with_hardcoded]. *)
Lemma routine_agrees_with_hardcoded_witness :
  let registers := [Complex 0.25 0.5; Complex 4 (-1); origin; origin] in
  (2 <= length registers <= 8)%nat /\
  exists fn,
    compile "*bb+ab" = Ok fn /\
    call_routine fn idle registers = Hardcoded.interpret registers "*bb+ab".
Proof.
  intros registers.
  assert (H : (2 <= length registers <= 8)%nat) by (simpl; lia).
  split; [assumption|].
  destruct routine_agrees_with_hardcoded as (fn & Hc & Hall).
  exists fn. split; [assumption|]. exact (Hall registers idle "*bb+ab"%string H).
Defined.

(** * The rendering loops *)

Lemma for_each_ext {A} (f g : Z -> result A) l :
  (forall v, f v = g v) -> for_each f l = for_each g l.
Proof.
  intros H. induction l as [|v l IH]; [reflexivity|].
  cbn [for_each]. now rewrite H, IH.
Qed.



Lemma iterations_ext n : forall i c1 c2 registers,
  (forall j r, length r = 4%nat -> c1 j r = c2 j r) ->
  (forall j r r', length r = 4%nat -> c2 j r = Ok r' -> length r' = 4%nat) ->
  length registers = 4%nat ->
  iterations n i c1 registers = iterations n i c2 registers.
Proof.
  induction n as [|n IH]; intros i c1 c2 registers Hc Hl Hr; [reflexivity|].
  cbn [iterations]. destruct (get registers 1) as [b| |]; cbn [bind]; try reflexivity.
  destruct (sqr (re b) + sqr (im b) <? 4)%float; [|reflexivity].
  rewrite (Hc i registers Hr).
  destruct (c2 i registers) as [r'| |] eqn:E; cbn [bind]; try reflexivity.
  apply IH; eauto.
Qed.

Lemma iterations_bounds n : forall i call registers k,
  iterations n i call registers = Ok k -> i <= k <= i + Z.of_nat n.
Proof.
  induction n as [|n IH]; intros i call registers k; cbn [iterations].
  - intros [= <-]. lia.
  - destruct (get registers 1) as [b| |]; cbn [bind]; try discriminate.
    destruct (sqr (re b) + sqr (im b) <? 4)%float; [|intros [= <-]; lia].
    destruct (call i registers) as [r'| |]; cbn [bind]; try discriminate.
    intros H. apply IH in H. lia.
Qed.

Lemma iterations_from_origin n call a r2 r3 k :
  iterations (S n) 0 call [a; origin; r2; r3] = Ok k -> 1 <= k <= 1 + Z.of_nat n.
Proof.
  cbn [iterations]. change (get [a; origin; r2; r3] 1) with (Ok origin).
  cbn [bind]. change (sqr (re origin) + sqr (im origin) <? 4)%float with true.
  destruct (call 0 [a; origin; r2; r3]) as [r'| |]; cbn [bind]; try discriminate.
  intros H. apply iterations_bounds in H. lia.
Qed.

(** X13.  With the program ["*bb+ab"] the [main] of mandeljit.c writes the
    same output as the [main] of hardcoded.c, whatever the vector registers
    hold at the calls and whatever argument hardcoded.c is given. *)
Theorem jit_renders_hardcoded_image scratch argv1 :
  Mandeljit.main "*bb+ab" scratch = HardcodedMain.main argv1.
Proof.
  unfold Mandeljit.main, HardcodedMain.main.
  destruct (compile "*bb+ab") as [fn| |] eqn:Hc;
    try (vm_compute in Hc; discriminate).
  cbn [bind].
  rewrite (for_each_ext (Mandeljit.line fn scratch) (HardcodedMain.line argv1));
    [reflexivity|].
  intros y. unfold Mandeljit.line, HardcodedMain.line. apply for_each_ext.
  intros x. unfold Mandeljit.pixel, HardcodedMain.pixel.
  unfold Mandeljit.count, HardcodedMain.count.
  rewrite (iterations_ext 256 0 _
             (fun _ registers => Hardcoded.interpret registers argv1));
    [reflexivity| | |reflexivity].
  - intros j r Hr. apply fractal_routine; [assumption|lia].
  - intros j r r' Hr H. apply hardcoded_length in H. congruence.
Qed.



(** X15.  In simple.c the inner loop ends with a count between 1 and 255,
    so the value printed for a pixel, 255 minus the count, lies between 0 and
    254. *)
Theorem simple_pixel_value argv1 x y k :
  Simple.count argv1 x y = Ok k ->
  0 <= 255 - k <= 254 /\
  Simple.pixel argv1 x y = Ok (" " ++ printf_d (255 - k))%string.
Proof.
  intros H. pose proof H as Hk. apply iterations_from_origin in Hk.
  split; [lia|]. unfold Simple.pixel. now rewrite H.
Qed.

(** An instance of [simple_pixel_value]. *)
Lemma simple_pixel_value_witness :
  Simple.count "*bb+ab" 300 200 = Ok 4 /\
  0 <= 255 - 4 <= 254 /\
  Simple.pixel "*bb+ab" 300 200 = Ok " 251"%string.
Proof.
  assert (H : Simple.count "*bb+ab" 300 200 = Ok 4) by (vm_compute; reflexivity).
  split; [assumption|].
  exact (simple_pixel_value "*bb+ab" 300 200 4 H).
Defined.









(** X19.  The four bytes stored by [compile_identity] of jitproto.c are
    [mov %rdi, %rax; ret]: called with any [long], the routine returns its
    argument. *)
Theorem compiled_identity_returns_argument regs x :
  - 2 ^ 63 <= x < 2 ^ 63 ->
  Jitproto.call Jitproto.compile_identity regs x = Some x.
Proof.
  intros Hx. unfold Jitproto.call.
  change (Jitproto.run (S (length Jitproto.compile_identity))
            Jitproto.compile_identity
            (fun r => if r =? Jitproto.rdi then x mod 2 ^ 64 else regs r))
    with (Some (fun r => if r =? 0
                         then (fun r => if r =? Jitproto.rdi then x mod 2 ^ 64 else regs r) 7
                         else (fun r => if r =? Jitproto.rdi then x mod 2 ^ 64 else regs r) r)).
  cbn beta. unfold Jitproto.rax, Jitproto.rdi. cbn [Z.eqb Pos.eqb].
  f_equal. unfold C.wrap_signed. change (2 ^ (64 - 1)) with (2 ^ 63).
  Z.div_mod_to_equations. lia.
Qed.

(** An instance of [compiled_identity_returns_argument]. *)
Lemma compiled_identity_returns_argument_witness :
  - 2 ^ 63 <= -5 < 2 ^ 63 /\
  Jitproto.call Jitproto.compile_identity (fun _ => 77) (-5) = Some (-5).
Proof.
  assert (H : - 2 ^ 63 <= -5 < 2 ^ 63) by lia.
  split; [assumption|].
  exact (compiled_identity_returns_argument (fun _ => 77) (-5) H).
Defined.
